(** * LobsterTCG asset tools: the sound-effect extraction runner

    A shallow embedding of [tools/extract_sfx.py].  The script drives a
    Game Boy emulator (PyBoy), triggers each effect of a fixed catalogue,
    records the audio the emulator produces, trims silence and hands the
    buffer to an external encoder.

    - Sample buffers are NumPy arrays of shape (n, 2) and dtype int8; they are
      lists of pairs of integers here, and the 8- and 16-bit arithmetic NumPy
      performs is written out with its wrap-around.
    - The emulator, the file system and the encoder process are external
      collaborators: the runner is written against an interface ([Host]) and
      every call it makes on it is recorded in a trace.
    - [tools/generate_counters.py] composes images through external
      libraries; nothing is stated about it and it is not modelled. *)

From Stdlib Require Import Ascii.
From stdpp Require Import base list gmap strings pretty.

Local Open Scope Z_scope.

(* ===================================================================== *)
(** * Sample buffers                                                      *)
(* ===================================================================== *)

Module Audio.

(** One row of the (n, 2) array: the left and the right sample. *)
Definition Frame : Type := Z * Z.

Definition SAMPLE_RATE : Z := 44100.

(** Two's-complement wrap-around of NumPy's fixed-width integers. *)
Definition wrap8 (z : Z) : Z := (z + 128) mod 256 - 128.
Definition wrap16 (z : Z) : Z := (z + 32768) mod 65536 - 32768.

(** [np.abs] on an int8 array stays in int8. *)
Definition np_abs8 (x : Z) : Z := wrap8 (Z.abs x).

(** [np.abs(samples).max(axis=1)]: one value per row. *)
Definition abs_max_axis1 (samples : list Frame) : list Z :=
  map (fun row => Z.max (np_abs8 (fst row)) (np_abs8 (snd row))) samples.

(** [np.where(cond)[0]]: the indices at which [cond] holds, ascending. *)
Fixpoint where_from (i : Z) (cond : list bool) : list Z :=
  match cond with
  | [] => []
  | c :: rest =>
      if c then i :: where_from (i + 1) rest else where_from (i + 1) rest
  end.

Definition np_where (cond : list bool) : list Z := where_from 0 cond.

(** Python's normalisation of a slice bound against a length [n]. *)
Definition slice_index (n : Z) (i : option Z) (dflt : Z) : Z :=
  match i with
  | None => dflt
  | Some i => if i <? 0 then Z.max 0 (i + n) else Z.min i n
  end.

(** [l[start:stop]] (step 1). *)
Definition py_slice {A : Type} (l : list A) (start stop : option Z) : list A :=
  let n := Z.of_nat (length l) in
  let a := slice_index n start 0 in
  let b := slice_index n stop n in
  take (Z.to_nat (b - a)) (drop (Z.to_nat a) l).

Definition len {A : Type} (l : list A) : Z := Z.of_nat (length l).

(** [trim_silence(samples, threshold=2, min_samples=1000)]. *)
Definition trim_silence (samples : list Frame) (threshold min_samples : Z)
  : list Frame :=
  let abs_samples := abs_max_axis1 samples in
  let non_silent := np_where (map (fun a => threshold <? a) abs_samples) in
  match non_silent with
  | [] => py_slice samples None (Some min_samples)
  | first :: _ =>
      let last_ := List.last non_silent first in
      let start := Z.max 0 (first - 100) in
      let end_ := Z.min (len samples) (last_ + SAMPLE_RATE / 4) in
      let result := py_slice samples (Some start) (Some end_) in
      if len result <? min_samples
      then py_slice samples None (Some min_samples)
      else result
  end.

(** The call the runner makes: both keyword arguments at their defaults. *)
Definition trim_silence_default (samples : list Frame) : list Frame :=
  trim_silence samples 2 1000.

(** [ndarray.clip(lo, hi)] on one value. *)
Definition clip (lo hi x : Z) : Z := Z.min hi (Z.max lo x).

(** The widening step of [samples_to_wav] on one sample:
    [(samples.astype(np.int16) * 256).clip(-32768, 32767).astype(np.int16)]. *)
Definition widen (s : Z) : Z :=
  wrap16 (clip (-32768) 32767 (wrap16 (wrap16 s * 256))).

Definition samples_16 (samples : list Frame) : list Frame :=
  map (fun row => (widen (fst row), widen (snd row))) samples.

(** [ndarray.tobytes()] of an int16 array: row-major, two little-endian
    bytes per sample. *)
Definition int16_bytes (v : Z) : list Z :=
  let u := v mod 65536 in [u mod 256; u / 256].

Definition tobytes (samples : list Frame) : list Z :=
  flat_map (fun row => int16_bytes (fst row) ++ int16_bytes (snd row)) samples.

(** ** The same trimming, following the words of the specification

    Step 7 of the specification, over a notion of "loud frame": keep from 100
    frames before the first loud frame to a quarter of a second after the last
    one, clamped to the buffer; a prefix of [min_samples] frames when no frame
    is loud or when what is kept is shorter than that. *)
Definition trim_by (loud : Frame → bool) (samples : list Frame) (min_samples : Z)
  : list Frame :=
  match np_where (map loud samples) with
  | [] => take (Z.to_nat min_samples) samples
  | first_loud :: _ =>
      let last_loud := List.last (np_where (map loud samples)) first_loud in
      let lo := Z.max 0 (first_loud - 100) in
      let hi := Z.min (len samples) (last_loud + SAMPLE_RATE / 4) in
      let kept := take (Z.to_nat (hi - lo)) (drop (Z.to_nat lo) samples) in
      if len kept <? min_samples
      then take (Z.to_nat min_samples) samples
      else kept
  end.

(** "Per-frame peak absolute amplitude across channels": the mathematical
    absolute value. *)
Definition peak_amplitude (row : Frame) : Z :=
  Z.max (Z.abs (fst row)) (Z.abs (snd row)).

Definition trim_silence_spec (samples : list Frame) (threshold min_samples : Z)
  : list Frame :=
  trim_by (λ row, threshold <? peak_amplitude row) samples min_samples.

(** What the script compares with the threshold. *)
Definition peak_int8 (row : Frame) : Z :=
  Z.max (np_abs8 (fst row)) (np_abs8 (snd row)).

(** A sample of the int8 domain other than its minimum. *)
Definition above_int8_min (row : Frame) : Prop :=
  (-128 < fst row <= 127) ∧ (-128 < snd row <= 127).

(** A quiet lead-in, one loud frame, a long quiet tail. *)
Definition click : list Frame :=
  repeat (0, 0) 200 ++ [(50, -60)] ++ repeat (1, -1) (Z.to_nat 12000).

(** A buffer whose every sample is the most negative int8 value. *)
Definition full_scale_negative (n : nat) : list Frame := repeat (-128, -128) n.

(** The script's test for a frame that is not silent. *)
Definition loud_int8 (threshold : Z) (row : Frame) : bool :=
  threshold <? peak_int8 row.


(** A short buffer with one loud frame. *)
Definition blip : list Frame := [(0, 0); (50, -60); (1, -1)].

End Audio.

(* ===================================================================== *)
(** * The effect catalogue                                                *)
(* ===================================================================== *)

(** [(id, name, estimated_frames)], as in [SFX_LIST]. *)
Definition SfxEntry : Type := Z * string * Z.

Definition sfx_id (e : SfxEntry) : Z := fst (fst e).
Definition sfx_name (e : SfxEntry) : string := snd (fst e).
Definition est_frames (e : SfxEntry) : Z := snd e.

Definition SFX_LIST : list SfxEntry := [
  (0x01, "cursor", 15);
  (0x02, "confirm", 20);
  (0x03, "cancel", 20);
  (0x04, "denied", 30);
  (0x05, "unused_05", 30);
  (0x06, "unused_06", 30);
  (0x07, "card_shuffle", 60);
  (0x08, "place_prize", 45);
  (0x09, "unused_09", 30);
  (0x0A, "unused_0a", 30);
  (0x0B, "coin_toss", 45);
  (0x0C, "warp", 60);
  (0x0D, "unused_0d", 30);
  (0x0E, "unused_0e", 30);
  (0x0F, "pokemon_dome_doors", 90);
  (0x10, "legendary_cards", 120);
  (0x11, "glow", 60);
  (0x12, "paralysis", 45);
  (0x13, "sleep", 60);
  (0x14, "confusion", 60);
  (0x15, "poison", 45);
  (0x16, "single_hit", 30);
  (0x17, "big_hit", 45);
  (0x18, "thunder_shock", 45);
  (0x19, "lightning", 60);
  (0x1A, "border_spark", 45);
  (0x1B, "big_lightning", 90);
  (0x1C, "small_flame", 45);
  (0x1D, "big_flame", 60);
  (0x1E, "fire_spin", 90);
  (0x1F, "dive_bomb", 60);
  (0x20, "water_jets", 60);
  (0x21, "water_gun", 45);
  (0x22, "whirlpool", 90);
  (0x23, "hydro_pump", 90);
  (0x24, "blizzard", 90);
  (0x25, "psychic", 60);
  (0x26, "leer", 45);
  (0x27, "beam", 60);
  (0x28, "hyper_beam", 120);
  (0x29, "rock_throw", 45);
  (0x2A, "stone_barrage", 60);
  (0x2B, "punch", 30);
  (0x2C, "stretch_kick", 45);
  (0x2D, "slash", 30);
  (0x2E, "sonicboom", 60);
  (0x2F, "fury_swipes", 60);
  (0x30, "drill", 90);
  (0x31, "pot_smash", 45);
  (0x32, "bonemerang", 60);
  (0x33, "seismic_toss", 90);
  (0x34, "needles", 45);
  (0x35, "white_gas", 60);
  (0x36, "powder", 45);
  (0x37, "goo", 60);
  (0x38, "bubbles", 60);
  (0x39, "string_shot", 60);
  (0x3A, "boyfriends", 60);
  (0x3B, "lure", 45);
  (0x3C, "toxic", 60);
  (0x3D, "confuse_ray", 60);
  (0x3E, "sing", 90);
  (0x3F, "supersonic", 60);
  (0x40, "petal_dance", 90);
  (0x41, "protect", 60);
  (0x42, "barrier", 60);
  (0x43, "speed", 45);
  (0x44, "whirlwind", 60);
  (0x45, "cry", 45);
  (0x46, "question_mark", 30);
  (0x47, "selfdestruct", 90);
  (0x48, "big_selfdestruct", 120);
  (0x49, "heal", 60);
  (0x4A, "drain", 60);
  (0x4B, "dark_gas", 60);
  (0x4C, "healing_wind", 90);
  (0x4D, "bench_whirlwind", 60);
  (0x4E, "expand", 60);
  (0x4F, "cat_punch", 45);
  (0x50, "thunder_wave", 60);
  (0x51, "firegiver", 120);
  (0x52, "thunderpunch", 60);
  (0x53, "fire_punch", 60);
  (0x54, "coin_toss_heads", 30);
  (0x55, "coin_toss_tails", 30);
  (0x56, "save_game", 60);
  (0x57, "player_walk_map", 30);
  (0x58, "intro_orb", 90);
  (0x59, "intro_orb_swoop", 60);
  (0x5A, "intro_orb_title", 90);
  (0x5B, "intro_orb_scatter", 60);
  (0x5C, "firegiver_start", 60);
  (0x5D, "receive_card_pop", 120);
  (0x5E, "pokemon_evolution", 120);
  (0x5F, "unused_5f", 30)
].

(* ===================================================================== *)
(** * Addresses                                                           *)
(* ===================================================================== *)

(** Memory addresses from the poketcg disassembly. *)
Definition ADDR_CUR_SFX_ID : Z := 0xDD82.
Definition ADDR_SFX_PRIORITY : Z := 0xDD83.
Definition ADDR_CUR_SONG_ID : Z := 0xDD80.
Definition ADDR_MUSIC_PAUSE : Z := 0xDDF2.

(** Game Boy sound hardware registers. *)
Definition ADDR_NR10 : Z := 0xFF10.
Definition ADDR_NR11 : Z := 0xFF11.
Definition ADDR_NR12 : Z := 0xFF12.
Definition ADDR_NR13 : Z := 0xFF13.
Definition ADDR_NR14 : Z := 0xFF14.

Definition ADDR_NR21 : Z := 0xFF16.
Definition ADDR_NR22 : Z := 0xFF17.
Definition ADDR_NR23 : Z := 0xFF18.
Definition ADDR_NR24 : Z := 0xFF19.

Definition ADDR_NR30 : Z := 0xFF1A.
Definition ADDR_NR31 : Z := 0xFF1B.
Definition ADDR_NR32 : Z := 0xFF1C.
Definition ADDR_NR33 : Z := 0xFF1D.
Definition ADDR_NR34 : Z := 0xFF1E.

Definition ADDR_NR41 : Z := 0xFF20.
Definition ADDR_NR42 : Z := 0xFF21.
Definition ADDR_NR43 : Z := 0xFF22.
Definition ADDR_NR44 : Z := 0xFF23.

Definition ADDR_NR50 : Z := 0xFF24.
Definition ADDR_NR51 : Z := 0xFF25.
Definition ADDR_NR52 : Z := 0xFF26.

(* ===================================================================== *)
(** * The runner's view of the outside world                              *)
(* ===================================================================== *)

(** Every call the script makes on the emulator, the file system or a
    subprocess, in the order it makes them. *)
Inductive Event : Type :=
| EvPathExists (path : string)
| EvMakedirs (path : string)
| EvRmtree (path : string)
| EvFfmpegVersion
| EvPyBoy (rom_path : string)
| EvStop
| EvTick
| EvWrite (addr value : Z)
| EvRead (addr : Z)
| EvSound
| EvWave (filename : string) (nchannels sampwidth framerate : Z) (frames : list Z)
| EvSubprocess (cmd : list string) (returncode : Z).

(** What the script consumes and does not implement.  [Env] is the state of
    the file system and of the processes the script can start, [Core] the
    emulator's internal state next to its memory.

    [ffmpeg_version] is [subprocess.run(['ffmpeg', '-version'], ...)]: it
    yields the return code, or [None] where Python raises
    [FileNotFoundError] (the one exception the script handles).
    [subprocess_run] is the conversion command; it yields the return code and
    the text of stderr. *)
Class Host (Env Core : Type) := {
  os_path_exists : string → Env → bool;
  os_path_expanduser : string → Env → string;
  os_makedirs : string → Env → Env;
  shutil_rmtree : string → Env → Env;
  ffmpeg_version : Env → option Z * Env;
  subprocess_run : list string → Env → (Z * string) * Env;
  wave_writeframes : string → Z → Z → Z → list Z → Env → Env;
  pyboy_new : string → Env → gmap Z Z * Core;
  pyboy_tick : gmap Z Z * Core → gmap Z Z * Core;
  pyboy_sound : gmap Z Z * Core → list Audio.Frame;
}.

(** A state monad; the state is either the world alone (before the
    emulator is started and after it is stopped) or the world with the
    emulator. *)
Definition Run (S A : Type) : Type := S → A * S.

#[global] Instance run_ret {S : Type} : MRet (Run S) := λ A a s, (a, s).

#[global] Instance run_bind {S : Type} : MBind (Run S) :=
  λ A B k m s, let '(a, s') := m s in k a s'.

Definition when_ {S : Type} (b : bool) (m : Run S unit) : Run S unit :=
  if b then m else mret tt.

(** Python's [for x in items: ...] with [break]. *)
Inductive Flow : Type := Continue | Break.

Fixpoint for_in {S A B : Type} (items : list A)
    (body : A → B → Run S (Flow * B)) (b : B) : Run S B :=
  match items with
  | [] => mret b
  | x :: rest =>
      r ← body x b;
      match r with
      | (Break, b') => mret b'
      | (Continue, b') => for_in rest body b'
      end
  end.

Definition range (n : Z) : list Z := map Z.of_nat (seq 0 (Z.to_nat n)).

(** ** Formatting and paths *)

Definition newline : string := String "010"%char EmptyString.

Definition hex_digit (d : Z) : string :=
  String.substring (Z.to_nat d) 1 "0123456789ABCDEF".

Fixpoint hex_go (fuel : nat) (n : Z) (acc : string) : string :=
  match fuel with
  | O => acc
  | S fuel' =>
      let acc' := hex_digit (n mod 16) +:+ acc in
      if n / 16 =? 0 then acc' else hex_go fuel' (n / 16) acc'
  end.

(** [f"{x:02X}"]. *)
Definition format_02X (x : Z) : string :=
  let digits := hex_go (S (Z.to_nat (Z.log2 (Z.abs x)))) (Z.abs x) "" in
  if x <? 0 then "-" +:+ digits
  else if (String.length digits <? 2)%nat then "0" +:+ digits
  else digits.

(** [os.path.join(a, b)] on POSIX paths. *)
Definition os_path_join (a b : string) : string :=
  if String.prefix "/" b then b
  else if bool_decide (a = "") || bool_decide (String.get (String.length a - 1) a = Some "/"%char)
  then a +:+ b
  else a +:+ "/" +:+ b.

Fixpoint str_join (sep : string) (l : list string) : string :=
  match l with
  | [] => ""
  | [x] => x
  | x :: rest => x +:+ sep +:+ str_join sep rest
  end.

(** The world outside the emulator: the host environment, what has been
    printed, and the calls made so far (oldest first). *)
Record World (Env : Type) : Type := {
  env : Env;
  stdout : string;
  trace : list Event;
}.
Arguments env {Env} _.
Arguments stdout {Env} _.
Arguments trace {Env} _.

(** The world together with the running emulator.  [memory] is
    [pyboy.memory], taken as a store of cells indexed by address: a write
    changes the cell written and records the call, a read returns what the
    cell holds (0 where nothing was ever stored).  The emulated machine reacts
    to what the script wrote when it next runs, which is why [pyboy_tick]
    takes the memory along with the core.  The values the script writes are
    bytes (constants and catalogue ids). *)
Record Emu (Env Core : Type) : Type := {
  memory : gmap Z Z;
  core : Core;
  world : World Env;
}.
Arguments memory {Env Core} _.
Arguments core {Env Core} _.
Arguments world {Env Core} _.

Section Runner.
Context {Env Core : Type} {HOST : Host Env Core}.

Definition log (ev : Event) (w : World Env) : World Env :=
  {| env := env w; stdout := stdout w; trace := trace w ++ [ev] |}.

Definition set_env (e : Env) (w : World Env) : World Env :=
  {| env := e; stdout := stdout w; trace := trace w |}.

(** ** Calls on the host *)

(** [print(s, end=e)]. *)
Definition print_end (s e : string) : Run (World Env) unit :=
  λ w, (tt, {| env := env w; stdout := stdout w +:+ s +:+ e; trace := trace w |}).

Definition print (s : string) : Run (World Env) unit := print_end s newline.

Definition path_exists (path : string) : Run (World Env) bool :=
  λ w, (os_path_exists path (env w), log (EvPathExists path) w).

Definition expanduser (path : string) : Run (World Env) string :=
  λ w, (os_path_expanduser path (env w), w).

Definition makedirs (path : string) : Run (World Env) unit :=
  λ w, (tt, log (EvMakedirs path) (set_env (os_makedirs path (env w)) w)).

Definition rmtree (path : string) : Run (World Env) unit :=
  λ w, (tt, log (EvRmtree path) (set_env (shutil_rmtree path (env w)) w)).

Definition run_ffmpeg_version : Run (World Env) (option Z) :=
  λ w, let r := ffmpeg_version (env w) in
       (fst r, log EvFfmpegVersion (set_env (snd r) w)).

Definition run_subprocess (cmd : list string) : Run (World Env) (Z * string) :=
  λ w, let r := subprocess_run cmd (env w) in
       (fst r, log (EvSubprocess cmd (fst (fst r))) (set_env (snd r) w)).

Definition wave_write (filename : string) (nchannels sampwidth framerate : Z)
    (frames : list Z) : Run (World Env) unit :=
  λ w, (tt, log (EvWave filename nchannels sampwidth framerate frames)
              (set_env (wave_writeframes filename nchannels sampwidth
                          framerate frames (env w)) w)).

(** ** Calls on the emulator *)

Definition in_world {A : Type} (m : Run (World Env) A) : Run (Emu Env Core) A :=
  λ st, let '(a, w) := m (world st) in
        (a, {| memory := memory st; core := core st; world := w |}).

(** [pyboy.tick()]. *)
Definition tick : Run (Emu Env Core) unit :=
  λ st, let mc := pyboy_tick (memory st, core st) in
        (tt, {| memory := fst mc; core := snd mc; world := log EvTick (world st) |}).

(** [pyboy.memory[addr] = value]. *)
Definition mem_write (addr value : Z) : Run (Emu Env Core) unit :=
  λ st, (tt, {| memory := <[addr := value]> (memory st); core := core st;
                world := log (EvWrite addr value) (world st) |}).

(** [pyboy.memory[addr]]. *)
Definition mem_read (addr : Z) : Run (Emu Env Core) Z :=
  λ st, (default 0 (memory st !! addr),
         {| memory := memory st; core := core st;
            world := log (EvRead addr) (world st) |}).

(** [pyboy.sound.ndarray.copy()]. *)
Definition sound_ndarray_copy : Run (Emu Env Core) (list Audio.Frame) :=
  λ st, (pyboy_sound (memory st, core st),
         {| memory := memory st; core := core st;
            world := log EvSound (world st) |}).

(** [for _ in range(n): pyboy.tick()]. *)
Definition ticks (n : Z) : Run (Emu Env Core) unit :=
  for_in (range n) (λ _ u, tick;; mret (Continue, u)) tt.

(** ** [reset_sound_channels] *)

Definition reset_sound_channels : Run (Emu Env Core) unit :=
  mem_write ADDR_NR12 0x00;;
  mem_write ADDR_NR22 0x00;;
  mem_write ADDR_NR42 0x00;;
  mem_write ADDR_NR30 0x00;;
  mem_write ADDR_NR14 0x80;;
  mem_write ADDR_NR24 0x80;;
  mem_write ADDR_NR44 0x80;;
  mem_write ADDR_NR10 0x00;;
  mem_write ADDR_NR11 0x00;;
  mem_write ADDR_NR21 0x00;;
  mem_write ADDR_NR50 0x77;;
  mem_write ADDR_NR51 0xFF.

(** ** [check_ffmpeg], [get_ffmpeg_path] *)

Definition check_ffmpeg : Run (World Env) bool :=
  r ← run_ffmpeg_version;
  match r with
  | Some returncode => mret (returncode =? 0)
  | None =>
      ffmpeg_path ← expanduser "~/bin/ffmpeg";
      found ← path_exists ffmpeg_path;
      if (found : bool) then mret true else mret false
  end.

Definition get_ffmpeg_path : Run (World Env) string :=
  r ← run_ffmpeg_version;
  match r with
  | Some _ => mret "ffmpeg"
  | None => expanduser "~/bin/ffmpeg"
  end.

(** ** [samples_to_wav], [wav_to_mp3] *)

Definition samples_to_wav (samples : list Audio.Frame) (filename : string)
  : Run (World Env) unit :=
  let samples_16 := Audio.samples_16 samples in
  wave_write filename 2 2 Audio.SAMPLE_RATE (Audio.tobytes samples_16).

(** The command line [cmd] built in [wav_to_mp3]. *)
Definition ffmpeg_cmd (ffmpeg wav_path mp3_path : string) : list string :=
  [ffmpeg; "-y"; "-i"; wav_path;
   "-codec:a"; "libmp3lame";
   "-qscale:a"; "2";
   "-ar"; pretty Audio.SAMPLE_RATE;
   mp3_path].

Definition wav_to_mp3 (wav_path mp3_path : string) : Run (World Env) bool :=
  ffmpeg ← get_ffmpeg_path;
  let cmd := ffmpeg_cmd ffmpeg wav_path mp3_path in
  '(returncode, stderr) ← run_subprocess cmd;
  if negb (returncode =? 0)
  then print ("FFmpeg error: " +:+ stderr);; mret false
  else mret true.

(** ** The recording loop of [extract_sfx] *)

(** [if len(sound_arr) > 0: all_samples.append(sound_arr)]. *)
Definition append_nonempty (all_samples : list (list Audio.Frame))
    (sound_arr : list Audio.Frame) : list (list Audio.Frame) :=
  if 0 <? Audio.len sound_arr then all_samples ++ [sound_arr] else all_samples.

(** One tick followed by one read of the audio buffer (the three statements
    that open the recording loop's body and make up its tail loop's body). *)
Definition capture (all_samples : list (list Audio.Frame))
  : Run (Emu Env Core) (list (list Audio.Frame)) :=
  tick;;
  sound_arr ← sound_ndarray_copy;
  mret (append_nonempty all_samples sound_arr).

(** The body of [for frame in range(frames_to_record)].  Python's [and]
    reads the memory cell only when [frame > 10]. *)
Definition record_frame (frame : Z) (all_samples : list (list Audio.Frame))
  : Run (Emu Env Core) (Flow * list (list Audio.Frame)) :=
  all_samples ← capture all_samples;
  finished ← (if 10 <? frame
              then cur ← mem_read ADDR_CUR_SFX_ID; mret (cur =? 0x80)
              else mret false);
  if (finished : bool) then
    all_samples ← for_in (range 15)
                    (λ _ acc, acc' ← capture acc; mret (Continue, acc'))
                    all_samples;
    mret (Break, all_samples)
  else mret (Continue, all_samples).

Definition record_audio (frames_to_record : Z)
  : Run (Emu Env Core) (list (list Audio.Frame)) :=
  for_in (range frames_to_record) record_frame [].

(** ** The body of [for sfx_id, sfx_name, est_frames in SFX_LIST] *)

(** From the progress message to the trigger: the statements between the
    [skip_unused] test and the recording loop. *)
Definition begin_entry (verbose : bool) (entry : SfxEntry) : Run (Emu Env Core) unit :=
  let '(sfx_id, sfx_name, est_frames) := entry in
  in_world (when_ verbose
    (print_end ("  Extracting " +:+ format_02X sfx_id +:+ ": "
                +:+ sfx_name +:+ "...") " "));;
  mem_write ADDR_MUSIC_PAUSE 1;;
  reset_sound_channels;;
  mem_write ADDR_CUR_SFX_ID 0x80;;
  mem_write ADDR_SFX_PRIORITY 0x00;;
  ticks 15;;
  mem_write ADDR_SFX_PRIORITY 0xFF;;
  mem_write ADDR_CUR_SFX_ID sfx_id.

(** The whole body.  The two counters of the loop, [extracted_count] and
    [failed], are threaded through. *)
Definition extract_one (skip_unused verbose : bool) (temp_dir output_dir : string)
    (entry : SfxEntry) (counters : Z * list string)
  : Run (Emu Env Core) (Flow * (Z * list string)) :=
  let '(_, sfx_name, est_frames) := entry in
  let '(extracted_count, failed) := counters in
  if skip_unused && String.prefix "unused" sfx_name then
    in_world (when_ verbose (print ("  Skipping " +:+ sfx_name)));;
    mret (Continue, (extracted_count, failed))
  else
    begin_entry verbose entry;;
    let frames_to_record := est_frames + 30 in
    all_samples ← record_audio frames_to_record;
    match all_samples with
    | [] =>
        in_world (when_ verbose (print "NO AUDIO"));;
        mret (Continue, (extracted_count, failed ++ [sfx_name]))
    | _ :: _ =>
        let audio_data := Audio.trim_silence_default (concat all_samples) in
        let wav_path := os_path_join temp_dir (sfx_name +:+ ".wav") in
        let mp3_path := os_path_join output_dir (sfx_name +:+ ".mp3") in
        in_world (samples_to_wav audio_data wav_path);;
        converted ← in_world (wav_to_mp3 wav_path mp3_path);
        if (converted : bool) then
          let duration_ms := Audio.len audio_data * 1000 / Audio.SAMPLE_RATE in
          in_world (when_ verbose (print ("OK (" +:+ pretty duration_ms +:+ "ms)")));;
          mret (Continue, (extracted_count + 1, failed))
        else
          in_world (when_ verbose (print "CONVERT FAILED"));;
          mret (Continue, (extracted_count, failed ++ [sfx_name]))
    end.

(** ** [extract_sfx] *)

(** [pyboy = PyBoy(rom_path, ...)] ... [pyboy.stop()]. *)
Definition with_pyboy {A : Type} (rom_path : string) (body : Run (Emu Env Core) A)
  : Run (World Env) A :=
  λ w, let mc := pyboy_new rom_path (env w) in
       let '(a, st) := body {| memory := fst mc; core := snd mc;
                               world := log (EvPyBoy rom_path) w |} in
       (a, log EvStop (world st)).

(** [extract_sfx] over a catalogue; the script's is [SFX_LIST]. *)
Definition extract_sfx_over (catalog : list SfxEntry)
    (rom_path output_dir : string) (skip_unused verbose : bool)
  : Run (World Env) bool :=
  rom_found ← path_exists rom_path;
  if negb rom_found then
    print ("Error: ROM file not found: " +:+ rom_path);;
    mret false
  else
  have_ffmpeg ← check_ffmpeg;
  if negb have_ffmpeg then
    print "Error: ffmpeg not found. Please install it or download static binary.";;
    mret false
  else
  makedirs output_dir;;
  let temp_dir := os_path_join output_dir ".temp" in
  makedirs temp_dir;;
  print ("Loading ROM: " +:+ rom_path);;
  '(extracted_count, failed) ← with_pyboy rom_path (
    in_world (print "Initializing game (waiting for title screen)...");;
    ticks 700;;
    in_world (print "Setting music pause flag...");;
    mem_write ADDR_MUSIC_PAUSE 1;;
    in_world (print "Resetting sound channels...");;
    reset_sound_channels;;
    ticks 60;;
    for_in catalog (extract_one skip_unused verbose temp_dir output_dir) (0, []));
  rmtree temp_dir;;
  print (newline +:+ "Extraction complete!");;
  print ("  Extracted: " +:+ pretty (extracted_count : Z) +:+ " SFX");;
  print ("  Failed: " +:+ pretty (Audio.len (failed : list string)));;
  when_ (negb (bool_decide (failed = [])))
    (print ("  Failed SFX: " +:+ str_join ", " failed));;
  mret (0 <? extracted_count).

Definition extract_sfx : string → string → bool → bool → Run (World Env) bool :=
  extract_sfx_over SFX_LIST.

(** ** [main] *)

(** The parsed command line. *)
Record Args : Type := {
  rom : string;
  output : string;
  arg_skip_unused : bool;
  quiet : bool;
}.

Definition default_args : Args :=
  {| rom := "pokemon_card_game.gb"; output := "public/sfx";
     arg_skip_unused := false; quiet := false |}.

(** [main], after [parser.parse_args()]: the result is the status handed to
    [sys.exit]. *)
Definition main_over (catalog : list SfxEntry) (args : Args) : Run (World Env) Z :=
  success ← extract_sfx_over catalog (rom args) (output args)
              (arg_skip_unused args) (negb (quiet args));
  mret (if (success : bool) then 0 else 1).

Definition main : Args → Run (World Env) Z := main_over SFX_LIST.

End Runner.

(* ===================================================================== *)
(** * Vocabulary of the statements                                        *)
(* ===================================================================== *)

(** The events of one iteration of the recording loop, and of its tail. *)
Definition frame_events (frame : nat) : list Event :=
  [EvTick; EvSound] ++ (if (10 <? frame)%nat then [EvRead ADDR_CUR_SFX_ID] else []).

Definition tail_events (n : nat) : list Event :=
  concat (replicate n [EvTick; EvSound]).

(** Calls on the emulator, as opposed to calls on the file system, the WAV
    writer or a subprocess. *)
Definition is_emu_event (ev : Event) : bool :=
  match ev with
  | EvTick | EvWrite _ _ | EvRead _ | EvSound => true
  | _ => false
  end.

(** The registers [reset_sound_channels] sets, with their values. *)
Definition quiesced_registers : list (Z * Z) := [
  (ADDR_NR12, 0x00); (ADDR_NR22, 0x00); (ADDR_NR42, 0x00);
  (ADDR_NR30, 0x00);
  (ADDR_NR14, 0x80); (ADDR_NR24, 0x80); (ADDR_NR44, 0x80);
  (ADDR_NR10, 0x00); (ADDR_NR11, 0x00); (ADDR_NR21, 0x00);
  (ADDR_NR50, 0x77); (ADDR_NR51, 0xFF)
].

(** A subprocess that completed with return code 0. *)
Definition ok_conversion (ev : Event) : bool :=
  match ev with
  | EvSubprocess _ returncode => returncode =? 0
  | _ => false
  end.

(** From every state, [m] records some calls [evs] after those already
    recorded, and [P] relates its result to them; [tr] reads the record of
    calls off the state. *)
Definition emits {S A : Type} (tr : S → list Event) (m : Run S A)
    (P : A → list Event → Prop) : Prop :=
  ∀ s, ∃ evs, tr (snd (m s)) = tr s ++ evs ∧ P (fst (m s)) evs.

(** No successful conversion among the calls. *)
Definition no_conversion (evs : list Event) : Prop :=
  Forall (λ ev, ok_conversion ev = false) evs.

(** [m] records no successful conversion. *)
Definition quietly {S A : Type} (tr : S → list Event) (m : Run S A) : Prop :=
  emits tr m (λ _ evs, no_conversion evs).

(** Recording a list of calls, first call first. *)
Definition log_all {Env : Type} (evs : list Event) (w : World Env) : World Env :=
  foldl (λ w ev, log ev w) w evs.

(** Writing a table of cells, first row first. *)
Definition write_all (table : list (Z * Z)) (mem : gmap Z Z) : gmap Z Z :=
  foldl (λ m row, <[fst row := snd row]> m) mem table.

(** The conversion of [entry]'s recording completed with return code 0. *)
Definition encoded (output_dir : string) (evs : list Event) (entry : SfxEntry) : Prop :=
  ∃ ffmpeg : string,
    EvSubprocess
      (ffmpeg_cmd ffmpeg
         (os_path_join (os_path_join output_dir ".temp") (sfx_name entry +:+ ".wav"))
         (os_path_join output_dir (sfx_name entry +:+ ".mp3"))) 0 ∈ evs.

(** What one pass through the loop body does to the counter of extracted
    effects: nothing, with no successful conversion recorded, or one more, with
    the entry's conversion recorded as successful. *)
Definition entry_outcome (output_dir : string) (entry : SfxEntry) (c : Z)
    (r : Flow * (Z * list string)) (evs : list Event) : Prop :=
  r.1 = Continue ∧
  (r.2.1 = c ∧ no_conversion evs ∨ r.2.1 = c + 1 ∧ encoded output_dir evs entry).

(** What the loop over [catalog] does to the counter of extracted effects,
    started at [c]: it never decreases; it increases only if the conversion of
    an entry of [catalog] is recorded as successful; and it stays only if no
    successful conversion is recorded. *)
Definition loop_outcome (output_dir : string) (catalog : list SfxEntry) (c : Z)
    (r : Z * list string) (evs : list Event) : Prop :=
  c <= r.1 ∧
  (c < r.1 → ∃ entry, entry ∈ catalog ∧ encoded output_dir evs entry) ∧
  (r.1 <= c → no_conversion evs).

(** The result of [extract_sfx] against the calls it recorded. *)
Definition run_outcome (output_dir : string) (catalog : list SfxEntry)
    (success : bool) (evs : list Event) : Prop :=
  success = true ↔ ∃ entry, entry ∈ catalog ∧ encoded output_dir evs entry.

(** ** Counting and classifying calls *)

Definition is_tick (ev : Event) : bool :=
  match ev with EvTick => true | _ => false end.

Definition is_sound (ev : Event) : bool :=
  match ev with EvSound => true | _ => false end.

Definition count_events (p : Event → bool) (evs : list Event) : nat :=
  length (List.filter p evs).

(** The calls of the two start-up checks. *)
Definition is_probe_event (ev : Event) : bool :=
  match ev with
  | EvPathExists _ | EvFfmpegVersion => true
  | _ => false
  end.

(** The calls the loop over the catalogue can make. *)
Definition is_entry_event (ev : Event) : bool :=
  match ev with
  | EvTick | EvWrite _ _ | EvRead _ | EvSound
  | EvWave _ _ _ _ _ | EvFfmpegVersion | EvSubprocess _ _ => true
  | _ => false
  end.

(** [m] records only calls that satisfy [p]. *)
Definition only {S A : Type} (p : Event → bool) (tr : S → list Event)
    (m : Run S A) : Prop :=
  emits tr m (λ _ evs, Forall (λ ev, p ev = true) evs).

(** [skip_unused and sfx_name.startswith('unused')]. *)
Definition skipped (skip_unused : bool) (entry : SfxEntry) : bool :=
  skip_unused && String.prefix "unused" (sfx_name entry).

(** The entries the loop does not skip. *)
Definition processed (skip_unused : bool) (catalog : list SfxEntry) : list SfxEntry :=
  List.filter (λ entry, negb (skipped skip_unused entry)) catalog.

(** The number of subprocess calls that returned 0. *)
Definition conversions_ok (evs : list Event) : Z :=
  Audio.len (List.filter ok_conversion evs).

(** One pass through the loop body, in the counters and in the calls: a
    skipped entry changes neither counter; any other entry either has its name
    appended to [failed] or adds one to the count of extracted effects; and the
    count grows by the number of successful conversions recorded. *)
Definition entry_account (skip_unused : bool) (entry : SfxEntry) (c : Z)
    (failed : list string) (r : Flow * (Z * list string)) (evs : list Event)
  : Prop :=
  r.1 = Continue ∧
  r.2.1 = c + conversions_ok evs ∧
  if skipped skip_unused entry then r.2 = (c, failed)
  else r.2 = (c, failed ++ [sfx_name entry]) ∨ r.2 = (c + 1, failed).

(** The loop over a catalogue, in the counters and in the calls. *)
Definition loop_account (skip_unused : bool) (catalog : list SfxEntry) (c : Z)
    (failed : list string) (r : Z * list string) (evs : list Event) : Prop :=
  r.1 = c + conversions_ok evs ∧
  ∃ names,
    r.2 = failed ++ names ∧
    names `sublist_of` (sfx_name <$> processed skip_unused catalog) ∧
    conversions_ok evs + Audio.len names = Audio.len (processed skip_unused catalog).

(** The calls from the start of the emulator to the first entry: the
    warm-up of 700 ticks, the music-pause flag, the reset of the sound
    registers and 60 ticks more. *)
Definition warm_up_events (rom_path : string) : list Event :=
  [EvPyBoy rom_path] ++ replicate 700 EvTick
  ++ [EvWrite ADDR_MUSIC_PAUSE 1]
  ++ map (λ row, EvWrite row.1 row.2) quiesced_registers
  ++ replicate 60 EvTick.

(** The two shapes of a run of [extract_sfx], in the calls it records: it
    stops at the start-up checks and returns false, or it goes through the
    whole sequence. *)
Definition run_shape (rom_path output_dir : string) (success : bool)
    (evs : list Event) : Prop :=
  (success = false ∧
   ∃ probe, evs = [EvPathExists rom_path] ++ probe ∧
            Forall (λ ev, is_probe_event ev = true) probe)
  ∨
  (∃ probe entries,
     evs = [EvPathExists rom_path] ++ probe
           ++ [EvMakedirs output_dir; EvMakedirs (os_path_join output_dir ".temp")]
           ++ warm_up_events rom_path ++ entries
           ++ [EvStop; EvRmtree (os_path_join output_dir ".temp")] ∧
     Forall (λ ev, is_probe_event ev = true) probe ∧
     Forall (λ ev, is_entry_event ev = true) entries).


Section Observations.
Context {Env Core : Type} {HOST : Host Env Core}.

Definition machine (st : Emu Env Core) : gmap Z Z * Core := (memory st, core st).

(** The emulator [k] ticks later, left alone in between. *)
Definition after (k : nat) (m : gmap Z Z * Core) : gmap Z Z * Core :=
  Nat.iter k pyboy_tick m.

Definition cell (addr : Z) (m : gmap Z Z * Core) : Z := default 0 (fst m !! addr).

(** The non-empty audio buffers of ticks [1 .. n] after [m]. *)
Definition heard (m : gmap Z Z * Core) (n : nat) : list (list Audio.Frame) :=
  List.filter (λ arr, 0 <? Audio.len arr)
    (map (λ i, pyboy_sound (after i m)) (seq 1 n)).

(** The recording loop's exit test succeeds in iteration [frame]: the
    iteration's index is above 10 and, after its tick, the cell of the
    current effect holds 0x80.  In [finished_from k m j] the emulator [m] is
    the one at the start of iteration [k], and [j] counts from there. *)
Definition finished_from (k : nat) (m : gmap Z Z * Core) (j : nat) : Prop :=
  (10 < k + j)%nat ∧ cell ADDR_CUR_SFX_ID (after (S j) m) = 0x80.

Definition finished_at (m : gmap Z Z * Core) (frame : nat) : Prop :=
  finished_from 0 m frame.

(** The emulator [m] in the world [w]. *)
Definition with_machine (m : gmap Z Z * Core) (w : World Env) : Emu Env Core :=
  {| memory := fst m; core := snd m; world := w |}.

(** [m] calls nothing but the emulator: the host environment is as before
    and every call recorded is a tick, a memory access or an audio read. *)
Definition emu_only {A : Type} (m : Run (Emu Env Core) A) : Prop :=
  ∀ st,
    env (world (snd (m st))) = env (world st) ∧
    ∃ evs, trace (world (snd (m st))) = trace (world st) ++ evs ∧
           Forall (λ ev, is_emu_event ev = true) evs.

End Observations.

(* ===================================================================== *)
(** * A scripted host                                                     *)
(* ===================================================================== *)

(** A stand-in for the emulator and the operating system, for running the
    script on concrete inputs.  The environment is the list of paths that
    exist; the emulator's core counts the ticks since an effect was
    triggered and reports it finished after [finish] of them. *)
Module Stub.

Record Script : Type := {
  sound : list Audio.Frame;
  finish : nat;
  version : option Z;
  returncode : Z;
}.

Definition stub_tick (s : Script) (mc : gmap Z Z * nat) : gmap Z Z * nat :=
  if default 0 (fst mc !! ADDR_CUR_SFX_ID) =? 0x80 then (fst mc, 0%nat)
  else if (S (snd mc) =? finish s)%nat
       then (<[ADDR_CUR_SFX_ID := 0x80]> (fst mc), 0%nat)
       else (fst mc, S (snd mc)).

Definition host (s : Script) : Host (list string) nat := {|
  os_path_exists path files := bool_decide (path ∈ files);
  os_path_expanduser path _ := path;
  os_makedirs path files := path :: files;
  shutil_rmtree path files := List.filter (λ f, negb (String.prefix path f)) files;
  ffmpeg_version files := (version s, files);
  subprocess_run cmd files :=
    ((returncode s, ""),
     if returncode s =? 0 then List.last cmd "" :: files else files);
  wave_writeframes filename _ _ _ _ files := filename :: files;
  pyboy_new _ _ := (∅, 0%nat);
  pyboy_tick := stub_tick s;
  pyboy_sound _ := sound s;
|}.

Definition world0 : World (list string) :=
  {| env := ["pokemon_card_game.gb"]; stdout := ""; trace := [] |}.

Definition emu0 : Emu (list string) nat :=
  {| memory := ∅; core := 0%nat; world := world0 |}.

(** Audio on every tick; a triggered effect finishes at its 12th tick. *)
Definition audible : Script :=
  {| sound := [(5, -5)]; finish := 12; version := Some 0; returncode := 0 |}.

(** No audio at all. *)
Definition silent : Script :=
  {| sound := []; finish := 12; version := Some 0; returncode := 0 |}.

Definition confirm_only : list SfxEntry := [(0x02, "confirm", 20)].

(** [ffmpeg -version] exits with status 1. *)
Definition broken_ffmpeg : Script :=
  {| sound := [(5, -5)]; finish := 12; version := Some 1; returncode := 0 |}.

(** A world without the ROM. *)
Definition no_rom : World (list string) :=
  {| env := []; stdout := ""; trace := [] |}.


End Stub.

(* ===================================================================== *)
(** * Properties of the sample-buffer functions                           *)
(* ===================================================================== *)

Module AudioFacts.
Import Audio.

(** ** Slices *)

Lemma len_nonneg {A : Type} (l : list A) : 0 <= len l.
Proof. unfold len. lia. Qed.

Lemma py_slice_prefix {A : Type} (l : list A) (m : Z) :
  0 <= m → py_slice l None (Some m) = take (Z.to_nat m) l.
Proof.
  intros Hm. unfold py_slice, slice_index.
  destruct (Z.ltb_spec m 0) as [?|_]; [lia|].
  rewrite drop_0, Z.sub_0_r.
  destruct (Z.le_gt_cases m (Z.of_nat (length l))) as [Hle|Hgt].
  - by rewrite Z.min_l.
  - rewrite Z.min_r by lia. rewrite Nat2Z.id.
    rewrite !take_ge; [done | lia | lia].
Qed.

Lemma py_slice_window {A : Type} (l : list A) (lo hi : Z) :
  0 <= lo → 0 <= hi <= len l →
  py_slice l (Some lo) (Some hi) = take (Z.to_nat (hi - lo)) (drop (Z.to_nat lo) l).
Proof.
  unfold len. intros Hlo Hhi. unfold py_slice, slice_index.
  destruct (Z.ltb_spec lo 0) as [?|_]; [lia|].
  destruct (Z.ltb_spec hi 0) as [?|_]; [lia|].
  rewrite (Z.min_l hi) by lia.
  destruct (Z.le_gt_cases lo (Z.of_nat (length l))) as [Hle|Hgt].
  - by rewrite Z.min_l.
  - rewrite Z.min_r by lia.
    replace (Z.to_nat (hi - Z.of_nat (length l))) with 0%nat by lia.
    replace (Z.to_nat (hi - lo)) with 0%nat by lia.
    done.
Qed.

(** ** [np.where] *)

Lemma where_from_app (i : Z) (c1 c2 : list bool) :
  where_from i (c1 ++ c2) = where_from i c1 ++ where_from (i + len c1) c2.
Proof.
  revert i. induction c1 as [|c c1 IH]; intros i; simpl.
  - unfold len. simpl. by rewrite Z.add_0_r.
  - rewrite IH. unfold len. simpl length.
    replace (i + 1 + Z.of_nat (length c1)) with (i + Z.of_nat (S (length c1))) by lia.
    by destruct c.
Qed.

Lemma where_from_shift (i d : Z) (cs : list bool) :
  where_from (i + d) cs = map (Z.add d) (where_from i cs).
Proof.
  revert i. induction cs as [|c cs IH]; intros i; simpl; [done|].
  replace (i + d + 1) with (i + 1 + d) by lia. rewrite IH.
  destruct c; simpl; [f_equal; lia | done].
Qed.

Lemma where_from_silent (i : Z) (cs : list bool) :
  Forall (λ c, c = false) cs → where_from i cs = [].
Proof.
  intros H. revert i. induction H as [|c cs Hc _ IH]; intros i; simpl; [done|].
  by rewrite Hc.
Qed.

Lemma where_from_nil_silent (i : Z) (cs : list bool) :
  where_from i cs = [] → Forall (λ c, c = false) cs.
Proof.
  revert i. induction cs as [|c cs IH]; intros i; simpl; [constructor|].
  destruct c; [done|]. intros H. constructor; [done | by eapply IH].
Qed.

Lemma where_from_bounds (i : Z) (cs : list bool) :
  Forall (λ x, i <= x < i + len cs) (where_from i cs).
Proof.
  revert i. induction cs as [|c cs IH]; intros i; simpl; [constructor|].
  assert (Forall (λ x, i <= x < i + len (c :: cs)) (where_from (i + 1) cs)) as Hrest.
  { eapply Forall_impl; [apply IH|]. unfold len. simpl length. intros x ?. lia. }
  destruct c; [constructor|]; try done.
  unfold len. simpl length. lia.
Qed.

Lemma where_from_head (i f : Z) (cs : list bool) (rest : list Z) :
  where_from i cs = f :: rest →
  i <= f < i + len cs ∧ Forall (λ c, c = false) (take (Z.to_nat (f - i)) cs).
Proof.
  revert i. induction cs as [|c cs IH]; intros i; simpl; [done|].
  destruct c.
  - intros [= <- _]. unfold len. simpl length.
    replace (Z.to_nat (i - i)) with 0%nat by lia. split; [lia | constructor].
  - intros H. destruct (IH _ H) as [Hb Hs]. unfold len in *. simpl length.
    split; [lia|].
    replace (Z.to_nat (f - i)) with (S (Z.to_nat (f - (i + 1)))) by lia.
    simpl. by constructor.
Qed.

Lemma last_cons_cons {A : Type} (x y : A) (l : list A) (d : A) :
  List.last (x :: y :: l) d = List.last (y :: l) d.
Proof. done. Qed.

Lemma last_map_nonempty {A B : Type} (g : A → B) (l : list A) (d : A) :
  List.last (map g l) (g d) = g (List.last l d).
Proof.
  induction l as [|x [|y l] IH]; [done | done |].
  simpl map in *. rewrite !last_cons_cons. apply IH.
Qed.

Lemma where_from_last (i : Z) (cs : list bool) (d : Z) :
  where_from i cs ≠ [] →
  i <= List.last (where_from i cs) d < i + len cs ∧
  Forall (λ c, c = false)
    (drop (Z.to_nat (List.last (where_from i cs) d + 1 - i)) cs).
Proof.
  revert i. induction cs as [|c cs IH]; intros i; simpl; [done|].
  intros Hne.
  destruct (where_from (i + 1) cs) as [|y ys] eqn:Hrest.
  - destruct c; [|done]. simpl.
    unfold len. simpl length.
    replace (Z.to_nat (i + 1 - i)) with 1%nat by lia. simpl.
    split; [lia|]. by eapply where_from_nil_silent.
  - assert (List.last (if c then i :: y :: ys else y :: ys) d
            = List.last (y :: ys) d) as ->.
    { by destruct c. }
    destruct (IH (i + 1)) as [Hb Hs]; [by rewrite Hrest|].
    rewrite Hrest in Hb, Hs. unfold len in *. simpl length.
    split; [lia|].
    replace (Z.to_nat (List.last (y :: ys) d + 1 - i))
      with (S (Z.to_nat (List.last (y :: ys) d + 1 - (i + 1)))) by lia.
    by simpl.
Qed.

Lemma Forall_last {A : Type} (P : A → Prop) (l : list A) (d : A) :
  l ≠ [] → Forall P l → P (List.last l d).
Proof.
  induction l as [|x [|y l] IH]; intros Hne H; [done | by inversion H |].
  rewrite last_cons_cons. apply IH; [done | by inversion H].
Qed.

Lemma where_from_head_least (i f : Z) (cs : list bool) (rest : list Z) :
  where_from i cs = f :: rest → Forall (λ x, f <= x) (f :: rest).
Proof.
  revert i. induction cs as [|c cs IH]; intros i; simpl; [done|].
  destruct c; [|apply IH].
  intros [= <- <-]. constructor; [lia|].
  eapply Forall_impl; [apply where_from_bounds|]. intros x ?. simpl in *. lia.
Qed.

Lemma where_from_head_le_last (i f : Z) (cs : list bool) (rest : list Z) :
  where_from i cs = f :: rest → f <= List.last (f :: rest) f.
Proof.
  intros H. apply (Forall_last (λ x, f <= x)); [done|].
  by eapply where_from_head_least.
Qed.

(** ** The window kept by the trimming *)

Lemma quarter_second : SAMPLE_RATE / 4 = 11025.
Proof. reflexivity. Qed.

Lemma np_where_window (p : Frame → bool) (b : list Frame)
    (f : Z) (rest : list Z) (lo hi : Z) :
  np_where (map p b) = f :: rest →
  0 <= lo <= f →
  List.last (f :: rest) f < hi <= len b →
  np_where (map p (take (Z.to_nat (hi - lo)) (drop (Z.to_nat lo) b)))
  = map (λ x, x - lo) (f :: rest).
Proof.
  intros HW Hlo Hhi. unfold np_where in *.
  set (cs := map p b) in *.
  assert (len cs = len b) as Hlen by (unfold len, cs; by rewrite length_map).
  destruct (where_from_head 0 f cs rest HW) as [Hf Hpre].
  destruct (where_from_last 0 cs f) as [Hl Hpost]; [by rewrite HW|].
  rewrite HW in Hl, Hpost.
  pose proof (where_from_head_le_last 0 f cs rest HW) as Hfl.
  set (l := List.last (f :: rest) f) in *.
  rewrite <- firstn_map, <- skipn_map. fold cs.
  set (mid := take (Z.to_nat (hi - lo)) (drop (Z.to_nat lo) cs)).
  assert (cs = take (Z.to_nat lo) cs ++ mid ++ drop (Z.to_nat hi) cs) as Hsplit.
  { unfold mid. rewrite <- (take_drop (Z.to_nat lo) cs) at 1. f_equal.
    rewrite <- (take_drop (Z.to_nat (hi - lo)) (drop (Z.to_nat lo) cs)) at 1.
    f_equal. rewrite drop_drop. f_equal. lia. }
  assert (where_from 0 (take (Z.to_nat lo) cs) = []) as Hpre0.
  { apply where_from_silent.
    replace (Z.to_nat lo) with (Z.to_nat lo `min` Z.to_nat (f - 0))%nat by lia.
    rewrite <- take_take. by apply Forall_take. }
  assert (∀ i, where_from i (drop (Z.to_nat hi) cs) = []) as Hpost0.
  { intros i. apply where_from_silent.
    replace (Z.to_nat hi)
      with (Z.to_nat (l + 1 - 0) + (Z.to_nat hi - Z.to_nat (l + 1 - 0)))%nat by lia.
    rewrite <- drop_drop. by apply Forall_drop. }
  assert (where_from lo mid = f :: rest) as Hmid.
  { rewrite Hsplit in HW. rewrite !where_from_app in HW.
    rewrite Hpre0, Hpost0, app_nil_l, app_nil_r in HW.
    rewrite <- HW. f_equal. unfold len. rewrite length_take. unfold len in *. lia. }
  replace lo with (0 + lo) in Hmid at 1 by lia.
  rewrite where_from_shift in Hmid. rewrite <- Hmid.
  rewrite map_map. rewrite <- (map_id (where_from 0 mid)) at 1.
  apply map_ext. intros x. lia.
Qed.

(** A buffer no longer than the minimum is returned whole. *)
Lemma trim_by_short (p : Frame → bool) (c : list Frame) (m : Z) :
  len c <= m → trim_by p c m = c.
Proof.
  unfold len. intros Hc. unfold trim_by.
  destruct (np_where (map p c)) as [|f rest] eqn:HW.
  - apply take_ge. lia.
  - cbv zeta.
    set (kept := take _ (drop _ c)).
    destruct (Z.ltb_spec (len kept) m) as [_|Hk]; [apply take_ge; lia|].
    assert (length kept <= length c - Z.to_nat (Z.max 0 (f - 100)))%nat as Hle.
    { unfold kept. rewrite length_take, length_drop. lia. }
    unfold len in Hk.
    assert (c ≠ []) as Hne by (intros ->; done).
    assert (0 < length c)%nat by (destruct c; simpl; [done | lia]).
    assert (Z.to_nat (Z.max 0 (f - 100)) = 0%nat) as Hz by lia.
    unfold kept. rewrite Hz, drop_0. apply take_ge.
    unfold kept in Hk. rewrite Hz, drop_0, length_take in Hk. lia.
Qed.

(** Trimming a trimmed buffer changes nothing, whatever "loud" means. *)
Lemma trim_by_idempotent (p : Frame → bool) (b : list Frame) (m : Z) :
  0 <= m → trim_by p (trim_by p b m) m = trim_by p b m.
Proof.
  intros Hm.
  assert (trim_by p (take (Z.to_nat m) b) m = take (Z.to_nat m) b) as Hprefix.
  { apply trim_by_short. unfold len. rewrite length_take. lia. }
  unfold trim_by at 2 3.
  destruct (np_where (map p b)) as [|f rest] eqn:HW; [done|].
  cbv zeta. rewrite quarter_second.
  set (l := List.last (f :: rest) f).
  set (lo := Z.max 0 (f - 100)).
  set (hi := Z.min (len b) (l + 11025)).
  set (kept := take (Z.to_nat (hi - lo)) (drop (Z.to_nat lo) b)).
  destruct (Z.ltb_spec (len kept) m) as [_|Hk]; [done|].
  assert (len (map p b) = len b) as Hlen by (unfold len; by rewrite length_map).
  destruct (where_from_head 0 f (map p b) rest HW) as [Hf _].
  destruct (where_from_last 0 (map p b) f) as [Hl _]; [unfold np_where in HW; by rewrite HW|].
  unfold np_where in HW. rewrite HW in Hl. fold l in Hl.
  pose proof (where_from_head_le_last 0 f (map p b) rest HW) as Hfl. fold l in Hfl.
  assert (len kept = hi - lo) as Hkept.
  { unfold len, kept. rewrite length_take, length_drop. unfold len in *. lia. }
  assert (np_where (map p kept) = map (λ x, x - lo) (f :: rest)) as HWk.
  { apply np_where_window; [done | lia | fold l; lia]. }
  unfold trim_by. rewrite HWk.
  simpl map. cbv zeta. rewrite quarter_second.
  change ((f - lo) :: map (λ x, x - lo) rest) with (map (λ x, x - lo) (f :: rest)).
  rewrite (last_map_nonempty (λ x, x - lo) (f :: rest) f). fold l.
  replace (Z.max 0 (f - lo - 100)) with 0 by lia.
  replace (Z.min (len kept) (l - lo + 11025)) with (len kept) by lia.
  rewrite Z.sub_0_r, drop_0.
  assert (take (Z.to_nat (len kept)) kept = kept) as ->.
  { apply take_ge. unfold len. lia. }
  destruct (Z.ltb_spec (len kept) m); [lia | done].
Qed.

Lemma trim_by_length (p : Frame → bool) (b : list Frame) (m : Z) :
  Z.min (len b) m <= len (trim_by p b m).
Proof.
  assert (Z.min (len b) m <= len (take (Z.to_nat m) b)) as Hprefix.
  { unfold len. rewrite length_take. lia. }
  unfold trim_by. destruct (np_where (map p b)); [done|].
  cbv zeta. destruct (Z.ltb_spec (len (take (Z.to_nat (Z.min (len b)
    (List.last (z :: l) z + SAMPLE_RATE / 4) - Z.max 0 (z - 100)))
    (drop (Z.to_nat (Z.max 0 (z - 100))) b))) m); [done | lia].
Qed.

Lemma trim_by_ext (p q : Frame → bool) (b : list Frame) (m : Z) :
  Forall (λ row, p row = q row) b → trim_by p b m = trim_by q b m.
Proof.
  intros H. unfold trim_by.
  assert (map p b = map q b) as ->; [|done].
  induction H as [|row b Hrow _ IH]; simpl; [done | by rewrite Hrow, IH].
Qed.

(** ** The script's function against the generic one *)

Lemma abs_max_axis1_cond (b : list Frame) (t : Z) :
  map (λ a, t <? a) (abs_max_axis1 b) = map (λ row, t <? peak_int8 row) b.
Proof. unfold abs_max_axis1. by rewrite map_map. Qed.

Lemma trim_silence_trim_by (b : list Frame) (t m : Z) :
  0 <= m → trim_silence b t m = trim_by (λ row, t <? peak_int8 row) b m.
Proof.
  intros Hm. unfold trim_silence, trim_by. cbv zeta.
  rewrite abs_max_axis1_cond.
  set (p := λ row, t <? peak_int8 row).
  destruct (np_where (map p b)) as [|f rest] eqn:HW.
  - by apply py_slice_prefix.
  - assert (len (map p b) = len b) as Hlen by (unfold len; by rewrite length_map).
    destruct (where_from_head 0 f (map p b) rest HW) as [Hf _].
    destruct (where_from_last 0 (map p b) f) as [Hl _]; [unfold np_where in HW; by rewrite HW|].
    unfold np_where in HW. rewrite HW in Hl.
    pose proof (len_nonneg b). rewrite quarter_second in *.
    rewrite py_slice_window by lia.
    by rewrite py_slice_prefix.
Qed.

Lemma np_abs8_exact (x : Z) : -128 < x <= 127 → np_abs8 x = Z.abs x.
Proof.
  intros Hx. unfold np_abs8, wrap8.
  rewrite Z.mod_small by lia. lia.
Qed.

(** X3: on buffers without the sample value -128 (and for a minimum length
    of at least 0) the script's trimming is the trimming by peak absolute
    amplitude: the first and the last frame whose larger channel magnitude
    exceeds the threshold bound the window, with the same margins and the same
    fallback. *)
Lemma trim_silence_refines_spec (b : list Frame) (t m : Z) :
  0 <= m → Forall above_int8_min b →
  trim_silence b t m = trim_silence_spec b t m.
Proof.
  intros Hm Hb. rewrite trim_silence_trim_by by done.
  unfold trim_silence_spec. apply trim_by_ext.
  eapply Forall_impl; [exact Hb|].
  intros row [H1 H2]. unfold peak_int8, peak_amplitude.
  by rewrite !np_abs8_exact.
Qed.

(** ** The claims about trimming and widening *)

(** C2, at a buffer of 1001 frames whose samples are all -128.  [np.abs]
    stays in int8 and maps -128 to -128, so the script finds no frame above
    the threshold and returns the first 1000 frames; by absolute amplitude
    (128 > 2) every frame is loud and all 1001 are to be kept. *)
Theorem trim_silence_int8_minimum :
  trim_silence (full_scale_negative 1001) 2 1000 = full_scale_negative 1000 ∧
  trim_silence_spec (full_scale_negative 1001) 2 1000 = full_scale_negative 1001.
Proof. split; vm_compute; reflexivity. Qed.

(** C3 as stated fails: a one-frame buffer comes back with one frame. *)
Lemma trim_silence_below_minimum :
  ¬ (∀ b : list Frame, 1000 <= len (trim_silence b 2 1000)).
Proof. intros H. specialize (H [(0, 0)]). vm_compute in H. by apply H. Qed.

(** C3, amended: the result has at least [min_samples] frames or at least as
    many as the input, whichever is less. *)
Theorem trim_silence_length (b : list Frame) (threshold min_samples : Z) :
  Z.min (len b) min_samples <= len (trim_silence b threshold min_samples).
Proof.
  destruct (Z.le_gt_cases 0 min_samples) as [Hm|Hm].
  - rewrite trim_silence_trim_by by done. apply trim_by_length.
  - pose proof (len_nonneg (trim_silence b threshold min_samples)). lia.
Qed.

(** C4: trimming is idempotent, for every threshold and every minimum
    length. *)
Theorem trim_silence_idempotent (b : list Frame) (threshold min_samples : Z) :
  0 <= min_samples →
  trim_silence (trim_silence b threshold min_samples) threshold min_samples
  = trim_silence b threshold min_samples.
Proof.
  intros Hm. rewrite !trim_silence_trim_by by done. by apply trim_by_idempotent.
Qed.

Lemma trim_silence_idempotent_witness :
  0 <= 1000 ∧
  trim_silence (trim_silence click 2 1000) 2 1000 = trim_silence click 2 1000.
Proof. split; [lia | apply (trim_silence_idempotent click 2 1000); lia]. Defined.

(** C10: on the int8 domain the widening step of [samples_to_wav] is the
    multiplication by 256; the clip leaves the product as it is. *)
Theorem widen_exact (s : Z) :
  -128 <= s <= 127 →
  widen s = 256 * s ∧
  clip (-32768) 32767 (wrap16 (wrap16 s * 256)) = wrap16 (wrap16 s * 256) ∧
  -32768 <= 256 * s <= 32512.
Proof.
  intros Hs. unfold widen, clip, wrap16.
  rewrite (Z.mod_small (s + 32768)) by lia.
  replace (s + 32768 - 32768) with s by lia.
  rewrite (Z.mod_small (s * 256 + 32768)) by lia.
  replace (s * 256 + 32768 - 32768) with (s * 256) by lia.
  rewrite Z.max_r, Z.min_r by lia.
  rewrite (Z.mod_small (s * 256 + 32768)) by lia.
  lia.
Qed.

Lemma widen_exact_witness :
  -128 <= -128 <= 127 ∧ widen (-128) = 256 * -128.
Proof. split; [lia | apply (widen_exact (-128)); lia]. Defined.

(** ** Further properties of the trimming and of the WAV payload *)

(** X1: whatever the threshold and the minimum length, the result is a
    contiguous run of frames of the input, in order: nothing is padded,
    repeated or reordered, and the result is never longer than the input. *)
Theorem trim_silence_slice (b : list Frame) (threshold min_samples : Z) :
  ∃ j k : nat,
    trim_silence b threshold min_samples = take k (drop j b) ∧
    len (trim_silence b threshold min_samples) <= len b.
Proof.
  assert (∀ start stop, ∃ j k : nat,
            py_slice b start stop = take k (drop j b) ∧ len (py_slice b start stop) <= len b)
    as Hslice.
  { intros start stop. unfold py_slice. eexists _, _. split; [done|].
    unfold len. rewrite length_take, length_drop. lia. }
  unfold trim_silence. cbv zeta.
  destruct (np_where _) as [|f rest]; [apply Hslice|].
  destruct (_ <? min_samples); apply Hslice.
Qed.

(** X2: when some frame is loud and the window from 100 frames before the
    first loud frame to [SAMPLE_RATE // 4] frames after the last one has at
    least [min_samples] frames, that window is the result; it holds every loud
    frame of the input (at its index less the window's start), begins at most
    100 frames before the first one and ends fewer than 11025 frames after the
    last one. *)
Theorem trim_silence_keeps_loud (b : list Frame) (threshold min_samples : Z)
    (f : Z) (rest : list Z) :
  0 <= min_samples →
  np_where (map (loud_int8 threshold) b) = f :: rest →
  let l := List.last (f :: rest) f in
  let lo := Z.max 0 (f - 100) in
  let hi := Z.min (len b) (l + 11025) in
  min_samples <= hi - lo →
  trim_silence b threshold min_samples
  = take (Z.to_nat (hi - lo)) (drop (Z.to_nat lo) b) ∧
  np_where (map (loud_int8 threshold) (trim_silence b threshold min_samples))
  = map (λ x, x - lo) (f :: rest) ∧
  0 <= f - lo <= 100 ∧
  0 <= len (trim_silence b threshold min_samples) - 1 - (l - lo) < 11025.
Proof.
  intros Hm HW. cbv zeta. intros Hwin.
  assert (len (map (loud_int8 threshold) b) = len b) as Hlen
    by (unfold len; by rewrite length_map).
  destruct (where_from_head 0 f _ rest HW) as [Hf _].
  destruct (where_from_last 0 (map (loud_int8 threshold) b) f) as [Hl _];
    [unfold np_where in HW; by rewrite HW|].
  pose proof (where_from_head_le_last 0 f _ rest HW) as Hfl.
  unfold np_where in HW. rewrite HW in Hl.
  set (l := List.last (f :: rest) f) in *.
  set (lo := Z.max 0 (f - 100)) in *.
  set (hi := Z.min (len b) (l + 11025)) in *.
  set (kept := take (Z.to_nat (hi - lo)) (drop (Z.to_nat lo) b)).
  assert (len kept = hi - lo) as Hkept.
  { unfold len, kept. rewrite length_take, length_drop. unfold len in *. lia. }
  assert (trim_silence b threshold min_samples = kept) as ->.
  { rewrite trim_silence_trim_by by done.
    change (λ row, threshold <? peak_int8 row) with (loud_int8 threshold).
    unfold trim_by, np_where. rewrite HW. cbv zeta. rewrite quarter_second.
    fold l lo hi kept. destruct (Z.ltb_spec (len kept) min_samples); [lia | done]. }
  split_and!; [done | | lia | lia | lia | lia].
  apply np_where_window; [done | lia | fold l; lia].
Qed.

Lemma trim_silence_keeps_loud_witness :
  0 <= 1000 ∧
  np_where (map (loud_int8 2) click) = [200] ∧
  1000 <= Z.min (len click) (200 + 11025) - Z.max 0 (200 - 100) ∧
  np_where (map (loud_int8 2) (trim_silence click 2 1000)) = [100].
Proof.
  split; [lia|]. split; [vm_compute; reflexivity|]. split; [vm_compute; discriminate|].
  apply (trim_silence_keeps_loud click 2 1000 200 []).
  - lia.
  - vm_compute. reflexivity.
  - vm_compute. discriminate.
Defined.

Lemma trim_silence_refines_spec_witness :
  0 <= 1000 ∧ Forall above_int8_min blip ∧
  trim_silence blip 2 1000 = trim_silence_spec blip 2 1000.
Proof.
  assert (Forall above_int8_min blip) as H by (repeat constructor; simpl; lia).
  split; [lia|]. split; [exact H|].
  apply (trim_silence_refines_spec blip 2 1000); [lia | exact H].
Defined.





End AudioFacts.

(* ===================================================================== *)
(** * Properties of the runner                                            *)
(* ===================================================================== *)

(** ** The catalogue *)

(** C7 as stated fails: the catalogue does not have 96 entries. *)
Lemma catalog_not_96 : length SFX_LIST ≠ 96%nat.
Proof. vm_compute. discriminate. Qed.

(** ** Tables of memory writes *)

Lemma write_all_lookup_notin (table : list (Z * Z)) (mem : gmap Z Z) (addr : Z) :
  addr ∉ table.*1 → write_all table mem !! addr = mem !! addr.
Proof.
  revert mem. induction table as [|[a v] table IH]; intros mem Hnotin; [done|].
  unfold write_all in *. simpl in *.
  apply not_elem_of_cons in Hnotin as [Hne Hnotin].
  rewrite IH by done. by rewrite lookup_insert_ne.
Qed.

Lemma write_all_lookup_in (table : list (Z * Z)) (mem : gmap Z Z) (addr value : Z) :
  NoDup table.*1 → (addr, value) ∈ table → write_all table mem !! addr = Some value.
Proof.
  revert mem. induction table as [|[a v] table IH]; intros mem Hnd Hin.
  - by apply not_elem_of_nil in Hin.
  - simpl in Hnd. apply NoDup_cons in Hnd as [Hfresh Hnd].
    apply elem_of_cons in Hin as [[= -> ->]|Hin].
    + change (write_all ((a, v) :: table) mem) with (write_all table (<[a:=v]> mem)).
      rewrite write_all_lookup_notin by done. apply lookup_insert_eq.
    + change (write_all ((a, v) :: table) mem) with (write_all table (<[a:=v]> mem)).
      by apply IH.
Qed.

Lemma write_all_idempotent (table : list (Z * Z)) (mem : gmap Z Z) :
  NoDup table.*1 → write_all table (write_all table mem) = write_all table mem.
Proof.
  intros Hnd. apply map_eq. intros addr.
  destruct (decide (addr ∈ table.*1)) as [Hin|Hnotin].
  - apply list_elem_of_fmap in Hin as [[a v] [-> Hin]]. simpl.
    by rewrite !(write_all_lookup_in table _ a v).
  - by rewrite !write_all_lookup_notin.
Qed.

Lemma quiesced_registers_distinct : NoDup quiesced_registers.*1.
Proof. apply (bool_decide_unpack (NoDup quiesced_registers.*1)). vm_compute. exact I. Qed.

Section RunnerFacts.
Context {Env Core : Type} {HOST : Host Env Core}.

Implicit Types (st : Emu Env Core) (w : World Env).

(** ** Running a computation *)

Lemma bind_run {S A B : Type} (m : Run S A) (k : A → Run S B) (s : S) :
  (m ≫= k) s = k (m s).1 (m s).2.
Proof. unfold mbind, run_bind. by destruct (m s). Qed.

Lemma tick_run st :
  tick st = (tt, {| memory := (pyboy_tick (machine st)).1;
                    core := (pyboy_tick (machine st)).2;
                    world := log EvTick (world st) |}).
Proof. done. Qed.

(** ** [reset_sound_channels] *)

Lemma reset_sound_channels_run st :
  reset_sound_channels st
  = (tt, {| memory := write_all quiesced_registers (memory st);
            core := core st;
            world := log_all (map (λ row, EvWrite row.1 row.2) quiesced_registers)
                       (world st) |}).
Proof. reflexivity. Qed.

(** C9: [reset_sound_channels] sets each of the twelve registers to its fixed
    value and leaves every other cell and the emulator's core alone; run a
    second time it leaves memory and core as the first run left them. *)
Theorem reset_sound_channels_idempotent st :
  let once := (reset_sound_channels st).2 in
  let twice := (reset_sound_channels once).2 in
  (∀ addr value, (addr, value) ∈ quiesced_registers → memory once !! addr = Some value) ∧
  (∀ addr, addr ∉ quiesced_registers.*1 → memory once !! addr = memory st !! addr) ∧
  core once = core st ∧
  memory twice = memory once ∧ core twice = core once.
Proof.
  cbv zeta. rewrite !reset_sound_channels_run.
  cbn [snd memory core].
  split_and!; try done.
  - intros addr value. apply write_all_lookup_in, quiesced_registers_distinct.
  - intros addr. apply write_all_lookup_notin.
  - apply write_all_idempotent, quiesced_registers_distinct.
Qed.

(** ** The primitive calls *)

Lemma mem_write_run (addr value : Z) st :
  mem_write addr value st
  = (tt, {| memory := <[addr := value]> (memory st); core := core st;
            world := log (EvWrite addr value) (world st) |}).
Proof. done. Qed.

Lemma sound_ndarray_copy_run st :
  sound_ndarray_copy st
  = (pyboy_sound (machine st),
     {| memory := memory st; core := core st; world := log EvSound (world st) |}).
Proof. done. Qed.

Lemma mret_run {S A : Type} (a : A) (s : S) : (mret a : Run S A) s = (a, s).
Proof. done. Qed.

Lemma in_world_run {A : Type} (m : Run (World Env) A) st :
  in_world m st
  = ((m (world st)).1,
     {| memory := memory st; core := core st; world := (m (world st)).2 |}).
Proof. unfold in_world. by destruct (m (world st)). Qed.

Lemma trace_log (ev : Event) w : trace (log ev w) = trace w ++ [ev].
Proof. done. Qed.

Lemma trace_log_all (evs : list Event) w : trace (log_all evs w) = trace w ++ evs.
Proof.
  revert w. induction evs as [|ev evs IH]; intros w.
  - by rewrite app_nil_r.
  - change (log_all (ev :: evs) w) with (log_all evs (log ev w)).
    rewrite IH, trace_log, <- app_assoc. done.
Qed.

Lemma env_log_all (evs : list Event) w : env (log_all evs w) = env w.
Proof.
  revert w. induction evs as [|ev evs IH]; intros w; [done|].
  change (log_all (ev :: evs) w) with (log_all evs (log ev w)). by rewrite IH.
Qed.

Lemma stdout_log_all (evs : list Event) w : stdout (log_all evs w) = stdout w.
Proof.
  revert w. induction evs as [|ev evs IH]; intros w; [done|].
  change (log_all (ev :: evs) w) with (log_all evs (log ev w)). by rewrite IH.
Qed.

(** ** Computations that only call the emulator *)

Lemma emu_only_ret {A : Type} (a : A) :
  @emu_only Env Core _ (mret a).
Proof.
  intros st. split; [done|]. exists []. by rewrite app_nil_r.
Qed.

Lemma emu_only_bind {A B : Type} (m : Run (Emu Env Core) A)
    (k : A → Run (Emu Env Core) B) :
  emu_only m → (∀ a, emu_only (k a)) → emu_only (m ≫= k).
Proof.
  intros Hm Hk st. rewrite bind_run.
  destruct (Hm st) as [He1 (e1 & Ht1 & Hf1)].
  destruct (Hk (m st).1 (m st).2) as [He2 (e2 & Ht2 & Hf2)].
  split; [congruence|].
  exists (e1 ++ e2). rewrite Ht2, Ht1, app_assoc. split; [done|].
  by apply Forall_app.
Qed.

Lemma emu_only_event {A : Type} (m : Run (Emu Env Core) A) (ev : Event) :
  is_emu_event ev = true →
  (∀ st, world (m st).2 = log ev (world st)) → emu_only m.
Proof.
  intros Hev Hm st. rewrite Hm. split; [done|].
  exists [ev]. split; [done|]. by constructor.
Qed.

Lemma emu_only_tick : emu_only tick.
Proof. by apply (emu_only_event _ EvTick). Qed.

Lemma emu_only_mem_write (addr value : Z) :
  @emu_only Env Core _ (mem_write addr value).
Proof. by apply (emu_only_event _ (EvWrite addr value)). Qed.

Lemma emu_only_mem_read (addr : Z) : @emu_only Env Core _ (mem_read addr).
Proof. by apply (emu_only_event _ (EvRead addr)). Qed.

Lemma emu_only_sound : emu_only sound_ndarray_copy.
Proof. by apply (emu_only_event _ EvSound). Qed.

Lemma emu_only_print (verbose : bool) (s e : string) :
  @emu_only Env Core _ (in_world (when_ verbose (print_end s e))).
Proof.
  intros st. rewrite in_world_run. destruct verbose.
  - split; [done|]. exists []. by rewrite app_nil_r.
  - split; [done|]. exists []. by rewrite app_nil_r.
Qed.

Lemma emu_only_if {A : Type} (b : bool) (m1 m2 : Run (Emu Env Core) A) :
  emu_only m1 → emu_only m2 → emu_only (if b then m1 else m2).
Proof. by destruct b. Qed.

Lemma emu_only_for_in {A B : Type} (items : list A)
    (body : A → B → Run (Emu Env Core) (Flow * B)) (b : B) :
  (∀ x b', emu_only (body x b')) → emu_only (for_in items body b).
Proof.
  intros Hbody. revert b. induction items as [|x items IH]; intros b.
  - apply emu_only_ret.
  - change (for_in (x :: items) body b)
      with (body x b ≫= λ r, match r with
                              | (Break, b') => mret b'
                              | (Continue, b') => for_in items body b'
                              end).
    apply emu_only_bind; [done|].
    intros [[|] b']; [apply IH | apply emu_only_ret].
Qed.

Create HintDb emu discriminated.
#[local] Hint Resolve emu_only_ret emu_only_tick emu_only_mem_write
  emu_only_mem_read emu_only_sound emu_only_print emu_only_if : emu.
#[local] Hint Extern 2 (emu_only (mbind _ _)) =>
  apply emu_only_bind; [|intros ?] : emu.
#[local] Hint Extern 2 (emu_only (for_in _ _ _)) =>
  apply emu_only_for_in; intros ? ? : emu.

Lemma emu_only_ticks (n : Z) : emu_only (ticks n).
Proof. unfold ticks. auto with emu. Qed.

Lemma emu_only_reset_sound_channels : @emu_only Env Core _ reset_sound_channels.
Proof. unfold reset_sound_channels. auto 20 with emu. Qed.

Lemma emu_only_capture (acc : list (list Audio.Frame)) : emu_only (capture acc).
Proof. unfold capture. auto with emu. Qed.

#[local] Hint Resolve emu_only_ticks emu_only_reset_sound_channels
  emu_only_capture : emu.

Lemma emu_only_record_frame (frame : Z) (acc : list (list Audio.Frame)) :
  emu_only (record_frame frame acc).
Proof.
  unfold record_frame.
  apply emu_only_bind; [auto with emu|]. intros acc1.
  apply emu_only_bind; [auto 10 with emu|]. intros [|]; auto 10 with emu.
Qed.

Lemma emu_only_record_audio (n : Z) : emu_only (record_audio n).
Proof.
  unfold record_audio. apply emu_only_for_in. intros. apply emu_only_record_frame.
Qed.

Lemma emu_only_begin_entry (verbose : bool) (entry : SfxEntry) :
  emu_only (begin_entry verbose entry).
Proof.
  destruct entry as [[id name] est]. unfold begin_entry.
  unfold print. auto 30 with emu.
Qed.

#[local] Hint Resolve emu_only_record_audio emu_only_begin_entry : emu.

(** ** Skipped entries *)

(** C8: with [skip_unused] set, an entry whose name starts with "unused"
    leaves the counters, the emulator (memory and core), the host environment
    and the record of calls exactly as they were; a line is printed when
    [verbose] is set.  The loop goes on with the next entry from that very
    state. *)
Theorem skip_unused_entry (verbose : bool) (temp_dir output_dir : string)
    (entry : SfxEntry) (extracted_count : Z) (failed : list string) st :
  String.prefix "unused" (sfx_name entry) = true →
  let r := extract_one true verbose temp_dir output_dir entry
             (extracted_count, failed) st in
  r.1 = (Continue, (extracted_count, failed)) ∧
  memory r.2 = memory st ∧ core r.2 = core st ∧
  env (world r.2) = env (world st) ∧
  trace (world r.2) = trace (world st) ∧
  stdout (world r.2)
  = (if verbose
     then stdout (world st) +:+ ("  Skipping " +:+ sfx_name entry) +:+ newline
     else stdout (world st)) ∧
  ∀ rest,
    for_in (entry :: rest) (extract_one true verbose temp_dir output_dir)
      (extracted_count, failed) st
    = for_in rest (extract_one true verbose temp_dir output_dir)
        (extracted_count, failed) r.2.
Proof.
  destruct entry as [[id name] est]. unfold sfx_name. cbn [fst snd].
  intros Hname. cbv zeta.
  assert (extract_one true verbose temp_dir output_dir (id, name, est)
            (extracted_count, failed) st
          = ((Continue, (extracted_count, failed)),
             {| memory := memory st; core := core st;
                world := (when_ verbose (print ("  Skipping " +:+ name)) (world st)).2 |}))
    as Hrun.
  { unfold extract_one. rewrite Hname. cbn [andb].
    rewrite bind_run, in_world_run. done. }
  split_and!.
  - by rewrite Hrun.
  - by rewrite Hrun.
  - by rewrite Hrun.
  - rewrite Hrun. by destruct verbose.
  - rewrite Hrun. by destruct verbose.
  - rewrite Hrun. by destruct verbose.
  - intros rest.
    change (for_in ((id, name, est) :: rest)
              (extract_one true verbose temp_dir output_dir)
              (extracted_count, failed) st)
      with ((extract_one true verbose temp_dir output_dir (id, name, est)
               (extracted_count, failed)
             ≫= λ r, match r with
                      | (Break, b') => mret b'
                      | (Continue, b') =>
                          for_in rest (extract_one true verbose temp_dir output_dir) b'
                      end) st).
    rewrite bind_run. by rewrite Hrun.
Qed.

(** ** Entries that yield no audio *)

(** C5: when the recording loop of a processed entry ends with an empty
    accumulator, the entry's name is appended to [failed], the count of
    extracted effects is unchanged, "NO AUDIO" is printed when [verbose] is
    set, and between the start of the entry and its end the script has called
    nothing but the emulator: the host environment is untouched and no WAV write
    and no subprocess is among the recorded calls.  The loop goes on with the
    next entry. *)
Theorem no_audio_entry (skip_unused verbose : bool) (temp_dir output_dir : string)
    (entry : SfxEntry) (extracted_count : Z) (failed : list string) st :
  skip_unused && String.prefix "unused" (sfx_name entry) = false →
  let recorded := record_audio (est_frames entry + 30) (begin_entry verbose entry st).2 in
  recorded.1 = [] →
  let r := extract_one skip_unused verbose temp_dir output_dir entry
             (extracted_count, failed) st in
  r.1 = (Continue, (extracted_count, failed ++ [sfx_name entry])) ∧
  env (world r.2) = env (world st) ∧
  (∃ evs, trace (world r.2) = trace (world st) ++ evs ∧
          Forall (λ ev, is_emu_event ev = true) evs) ∧
  stdout (world r.2)
  = (if verbose
     then stdout (world recorded.2) +:+ "NO AUDIO" +:+ newline
     else stdout (world recorded.2)) ∧
  ∀ rest,
    for_in (entry :: rest) (extract_one skip_unused verbose temp_dir output_dir)
      (extracted_count, failed) st
    = for_in rest (extract_one skip_unused verbose temp_dir output_dir)
        (extracted_count, failed ++ [sfx_name entry]) r.2.
Proof.
  destruct entry as [[id name] est]. unfold sfx_name, est_frames. cbn [fst snd].
  intros Hskip. cbv zeta. intros Hempty.
  set (recorded := record_audio (est + 30) (begin_entry verbose (id, name, est) st).2) in *.
  assert (extract_one skip_unused verbose temp_dir output_dir (id, name, est)
            (extracted_count, failed) st
          = ((Continue, (extracted_count, failed ++ [name])),
             (in_world (when_ verbose (print "NO AUDIO")) recorded.2).2))
    as Hrun.
  { unfold extract_one. rewrite Hskip.
    rewrite bind_run. cbv zeta. rewrite bind_run. fold recorded.
    rewrite Hempty. rewrite bind_run. done. }
  pose proof (emu_only_bind _ _ (emu_only_begin_entry verbose (id, name, est))
    (λ _, emu_only_bind _ _ (emu_only_record_audio (est + 30))
       (λ _, emu_only_print verbose "NO AUDIO" newline)) st) as Honly.
  rewrite !bind_run in Honly. fold recorded in Honly.
  split_and!.
  - by rewrite Hrun.
  - rewrite Hrun. apply Honly.
  - rewrite Hrun. apply Honly.
  - rewrite Hrun. rewrite in_world_run. by destruct verbose.
  - intros rest.
    change (for_in ((id, name, est) :: rest)
              (extract_one skip_unused verbose temp_dir output_dir)
              (extracted_count, failed) st)
      with ((extract_one skip_unused verbose temp_dir output_dir (id, name, est)
               (extracted_count, failed)
             ≫= λ r, match r with
                      | (Break, b') => mret b'
                      | (Continue, b') =>
                          for_in rest
                            (extract_one skip_unused verbose temp_dir output_dir) b'
                      end) st).
    rewrite bind_run. by rewrite Hrun.
Qed.

(** ** The recording loop *)

Lemma with_machine_machine (m : gmap Z Z * Core) w : machine (with_machine m w) = m.
Proof. by destruct m. Qed.

Lemma with_machine_eta st : with_machine (machine st) (world st) = st.
Proof. by destruct st. Qed.

Lemma world_with_machine (m : gmap Z Z * Core) w : world (with_machine m w) = w.
Proof. done. Qed.

Lemma after_tick (n : nat) (m : gmap Z Z * Core) :
  after n (pyboy_tick m) = after (S n) m.
Proof. unfold after. by rewrite Nat.iter_succ_r. Qed.

Lemma log_all_app (e1 e2 : list Event) w :
  log_all (e1 ++ e2) w = log_all e2 (log_all e1 w).
Proof. unfold log_all. by rewrite foldl_app. Qed.

Lemma append_nonempty_app (acc : list (list Audio.Frame)) (arr : list Audio.Frame) :
  append_nonempty acc arr = acc ++ append_nonempty [] arr.
Proof. unfold append_nonempty. destruct (0 <? Audio.len arr); [done | by rewrite app_nil_r]. Qed.

Lemma heard_succ (m : gmap Z Z * Core) (n : nat) :
  heard m (S n) = append_nonempty [] (pyboy_sound (pyboy_tick m)) ++ heard (pyboy_tick m) n.
Proof.
  unfold heard. cbn [seq map List.filter].
  assert (map (λ i, pyboy_sound (after i m)) (seq 2 n)
          = map (λ i, pyboy_sound (after i (pyboy_tick m))) (seq 1 n)) as ->.
  { rewrite <- (seq_shift n 1), map_map. apply map_ext. intros i. by rewrite after_tick. }
  change (after 1 m) with (pyboy_tick m).
  unfold append_nonempty. by destruct (0 <? Audio.len (pyboy_sound (pyboy_tick m))).
Qed.

Lemma capture_run (acc : list (list Audio.Frame)) st :
  capture acc st
  = (append_nonempty acc (pyboy_sound (pyboy_tick (machine st))),
     with_machine (pyboy_tick (machine st)) (log_all [EvTick; EvSound] (world st))).
Proof.
  unfold capture. rewrite bind_run, tick_run. cbn [fst snd].
  rewrite bind_run, sound_ndarray_copy_run. cbn [fst snd].
  rewrite mret_run. unfold machine at 1. cbn [memory core].
  by rewrite <- surjective_pairing.
Qed.

Lemma for_in_cons {S A B : Type} (x : A) (items : list A)
    (body : A → B → Run S (Flow * B)) (b : B) (s : S) :
  for_in (x :: items) body b s
  = match (body x b s).1 with
    | (Break, b') => (b', (body x b s).2)
    | (Continue, b') => for_in items body b' (body x b s).2
    end.
Proof.
  change (for_in (x :: items) body b s)
    with ((body x b ≫= λ r, match r with
                             | (Break, b') => mret b'
                             | (Continue, b') => for_in items body b'
                             end) s).
  rewrite bind_run. by destruct (body x b s).1 as [[|] b'].
Qed.

(** The tail loop: [n] captures. *)
Lemma tail_loop_run {A : Type} (items : list A) (acc : list (list Audio.Frame)) st :
  for_in items (λ _ acc, acc' ← capture acc; mret (Continue, acc')) acc st
  = (acc ++ heard (machine st) (length items),
     with_machine (after (length items) (machine st))
       (log_all (tail_events (length items)) (world st))).
Proof.
  revert acc st. induction items as [|x items IH]; intros acc st.
  - cbn [for_in length]. rewrite mret_run.
    change (heard (machine st) 0) with (@nil (list Audio.Frame)).
    rewrite app_nil_r. by rewrite <- (with_machine_eta st) at 1.
  - rewrite for_in_cons, bind_run, capture_run. cbn [fst snd].
    rewrite mret_run. cbn [fst snd]. rewrite IH.
    rewrite with_machine_machine, world_with_machine.
    cbn [length]. rewrite heard_succ, after_tick.
    rewrite (append_nonempty_app acc), <- app_assoc. done.
Qed.

Lemma mem_read_machine (addr : Z) st :
  mem_read addr st
  = (cell addr (machine st),
     with_machine (machine st) (log (EvRead addr) (world st))).
Proof. done. Qed.

Lemma record_frame_run (frame : Z) (acc : list (list Audio.Frame)) st :
  let m := pyboy_tick (machine st) in
  let acc1 := append_nonempty acc (pyboy_sound m) in
  record_frame frame acc st
  = if 10 <? frame then
      if cell ADDR_CUR_SFX_ID m =? 0x80 then
        ((Break, acc1 ++ heard m 15),
         with_machine (after 15 m)
           (log_all ([EvTick; EvSound; EvRead ADDR_CUR_SFX_ID] ++ tail_events 15)
              (world st)))
      else
        ((Continue, acc1),
         with_machine m (log_all [EvTick; EvSound; EvRead ADDR_CUR_SFX_ID] (world st)))
    else
      ((Continue, acc1), with_machine m (log_all [EvTick; EvSound] (world st))).
Proof.
  cbv zeta. unfold record_frame.
  rewrite bind_run, capture_run. cbn [fst snd]. rewrite bind_run.
  destruct (10 <? frame).
  - rewrite bind_run, mem_read_machine. cbn [fst snd]. rewrite mret_run. cbn [fst snd].
    rewrite !with_machine_machine, !world_with_machine.
    destruct (cell ADDR_CUR_SFX_ID (pyboy_tick (machine st)) =? 128).
    + rewrite bind_run.
      change (range 15) with (map Z.of_nat (seq 0 15)).
      rewrite tail_loop_run, length_map, length_seq. cbn [fst snd].
      rewrite mret_run.
      rewrite !with_machine_machine, !world_with_machine.
      by rewrite log_all_app.
    + by rewrite mret_run.
  - rewrite mret_run. cbn [fst snd]. by rewrite mret_run.
Qed.

Lemma finished_from_shift (k j : nat) (m : gmap Z Z * Core) :
  finished_from (S k) (pyboy_tick m) j ↔ finished_from k m (S j).
Proof.
  unfold finished_from. rewrite after_tick.
  replace (S k + j)%nat with (k + S j)%nat by lia. done.
Qed.

(** The loop from iteration [k] on, with [r] iterations left. *)
Lemma record_loop (r k : nat) (acc : list (list Audio.Frame)) st :
  ∃ iterations tail : nat,
    (iterations ≤ r)%nat ∧
    (∀ j, (S j < iterations)%nat → ¬ finished_from k (machine st) j) ∧
    ((0 < iterations)%nat ∧ finished_from k (machine st) (iterations - 1) ∧
       tail = 15%nat
     ∨ iterations = r ∧ (∀ j, (j < r)%nat → ¬ finished_from k (machine st) j) ∧
       tail = 0%nat) ∧
    for_in (map Z.of_nat (seq k r)) record_frame acc st
    = (acc ++ heard (machine st) (iterations + tail),
       with_machine (after (iterations + tail) (machine st))
         (log_all (flat_map frame_events (seq k iterations) ++ tail_events tail)
            (world st))).
Proof.
  revert k acc st. induction r as [|r IH]; intros k acc st.
  - exists 0%nat, 0%nat. split_and!; [lia | intros; lia | right; split_and!; [done | intros; lia | done] |].
    cbn [seq map for_in]. rewrite mret_run.
    change (heard (machine st) (0 + 0)) with (@nil (list Audio.Frame)).
    rewrite app_nil_r. by rewrite <- (with_machine_eta st) at 1.
  - cbn [seq map]. rewrite for_in_cons, record_frame_run. cbv zeta.
    set (m := pyboy_tick (machine st)).
    set (acc1 := append_nonempty acc (pyboy_sound m)).
    assert ((10 <? k)%nat = (10 <? Z.of_nat k)) as Hk.
    { destruct (Z.ltb_spec 10 (Z.of_nat k)), (Nat.ltb_spec 10 k); done || lia. }
    assert (acc1 = acc ++ append_nonempty [] (pyboy_sound m)) as Hacc
      by apply append_nonempty_app.
    destruct (10 <? Z.of_nat k) eqn:Hgt;
      [destruct (cell ADDR_CUR_SFX_ID m =? 128) eqn:Hcell|].
    + (* the exit test succeeds: the tail, then break *)
      exists 1%nat, 15%nat. cbn [fst snd].
      split_and!; [lia | intros; lia | |].
      * left. split_and!; [lia | | done].
        split; [apply Nat.ltb_lt in Hk; lia|]. by apply Z.eqb_eq.
      * f_equal.
        -- change (1 + 15)%nat with (S 15). rewrite (heard_succ (machine st)). fold m.
           by rewrite Hacc, <- app_assoc.
        -- change (1 + 15)%nat with (S 15). rewrite <- after_tick. fold m.
           f_equal. unfold frame_events. cbn [seq flat_map]. rewrite Hk.
           by rewrite app_nil_r.
    + (* above 10, the cell does not hold the sentinel *)
      cbn [fst snd].
      destruct (IH (S k) acc1
                  (with_machine m
                     (log_all [EvTick; EvSound; EvRead ADDR_CUR_SFX_ID] (world st))))
        as (it & tl & Hit & Hbefore & Hend & Hrun).
      rewrite with_machine_machine, world_with_machine in *.
      assert (¬ finished_from k (machine st) 0) as Hnot0.
      { intros [_ Hc]. apply Z.eqb_neq in Hcell. by apply Hcell. }
      exists (S it), tl. split_and!; [lia | | |].
      * intros [|j] Hj; [done|]. rewrite <- finished_from_shift. apply Hbefore. lia.
      * destruct Hend as [(Hpos & Hfin & ->)|(-> & Hnone & ->)].
        -- left. split_and!; [lia | | done].
           replace (S it - 1)%nat with (S (it - 1)) by lia.
           by apply finished_from_shift.
        -- right. split_and!; [done | | done].
           intros [|j] Hj; [done|]. rewrite <- finished_from_shift. apply Hnone. lia.
      * rewrite Hrun. f_equal.
        -- change (S it + tl)%nat with (S (it + tl)). rewrite (heard_succ (machine st)). fold m.
           by rewrite Hacc, <- app_assoc.
        -- change (S it + tl)%nat with (S (it + tl)). rewrite <- after_tick. fold m.
           f_equal. rewrite <- log_all_app. f_equal.
           cbn [seq flat_map]. unfold frame_events at 2. rewrite Hk.
           by rewrite <- !app_assoc.
    + (* iterations 0 to 10: no test *)
      cbn [fst snd].
      destruct (IH (S k) acc1 (with_machine m (log_all [EvTick; EvSound] (world st))))
        as (it & tl & Hit & Hbefore & Hend & Hrun).
      rewrite with_machine_machine, world_with_machine in *.
      assert (¬ finished_from k (machine st) 0) as Hnot0.
      { intros [Hc _]. apply Nat.ltb_ge in Hk. lia. }
      exists (S it), tl. split_and!; [lia | | |].
      * intros [|j] Hj; [done|]. rewrite <- finished_from_shift. apply Hbefore. lia.
      * destruct Hend as [(Hpos & Hfin & ->)|(-> & Hnone & ->)].
        -- left. split_and!; [lia | | done].
           replace (S it - 1)%nat with (S (it - 1)) by lia.
           by apply finished_from_shift.
        -- right. split_and!; [done | | done].
           intros [|j] Hj; [done|]. rewrite <- finished_from_shift. apply Hnone. lia.
      * rewrite Hrun. f_equal.
        -- change (S it + tl)%nat with (S (it + tl)). rewrite (heard_succ (machine st)). fold m.
           by rewrite Hacc, <- app_assoc.
        -- change (S it + tl)%nat with (S (it + tl)). rewrite <- after_tick. fold m.
           f_equal. rewrite <- log_all_app. f_equal.
           cbn [seq flat_map]. unfold frame_events at 2. rewrite Hk.
           by rewrite <- !app_assoc.
Qed.

(** C1: the recording loop of an entry with estimate [est] runs at most
    [est + 30] iterations.  Iteration [frame] ticks once, reads the audio
    buffer once and, when [frame > 10], reads the cell of the current effect;
    the accumulator ends up holding exactly the non-empty buffers read, in
    order.  The first iteration above 10 after whose tick the cell holds 0x80
    is followed by exactly 15 more tick-and-read steps and ends the loop;
    without such an iteration the loop runs all [est + 30] iterations and
    has no tail. *)
Theorem record_audio_spec (est : Z) st :
  let m := machine st in
  let limit := Z.to_nat (est + 30) in
  ∃ iterations tail : nat,
    (iterations ≤ limit)%nat ∧
    (∀ frame, (S frame < iterations)%nat → ¬ finished_at m frame) ∧
    ((0 < iterations)%nat ∧ finished_at m (iterations - 1) ∧ tail = 15%nat
     ∨ iterations = limit ∧ (∀ frame, (frame < limit)%nat → ¬ finished_at m frame) ∧
       tail = 0%nat) ∧
    record_audio (est + 30) st
    = (heard m (iterations + tail),
       with_machine (after (iterations + tail) m)
         (log_all (flat_map frame_events (seq 0 iterations) ++ tail_events tail)
            (world st))).
Proof.
  cbv zeta. unfold record_audio, range, finished_at.
  destruct (record_loop (Z.to_nat (est + 30)) 0 [] st)
    as (it & tl & Hit & Hbefore & Hend & Hrun).
  exists it, tl. by rewrite app_nil_l in Hrun.
Qed.

(** ** Calls recorded by a computation *)

Lemma emits_ret {S A : Type} (tr : S → list Event) (a : A)
    (P : A → list Event → Prop) :
  P a [] → emits tr (mret a) P.
Proof. intros HP s. exists []. by rewrite app_nil_r. Qed.

Lemma emits_bind {S A B : Type} (tr : S → list Event) (m : Run S A)
    (k : A → Run S B) (P : A → list Event → Prop)
    (Q : A → B → list Event → Prop) (R : B → list Event → Prop) :
  emits tr m P → (∀ a, emits tr (k a) (Q a)) →
  (∀ a e1 b e2, P a e1 → Q a b e2 → R b (e1 ++ e2)) →
  emits tr (m ≫= k) R.
Proof.
  intros Hm Hk HR s. rewrite bind_run.
  destruct (Hm s) as (e1 & Ht1 & HP).
  destruct (Hk (m s).1 (m s).2) as (e2 & Ht2 & HQ).
  exists (e1 ++ e2). rewrite Ht2, Ht1, app_assoc. split; [done|]. by eapply HR.
Qed.

Lemma emits_in_world {A : Type} (m : Run (World Env) A) (P : A → list Event → Prop) :
  emits trace m P → emits (λ st : Emu Env Core, trace (world st)) (in_world m) P.
Proof.
  intros Hm st. rewrite in_world_run. cbn [fst snd world]. apply Hm.
Qed.

Lemma no_conversion_app (e1 e2 : list Event) :
  no_conversion e1 → no_conversion e2 → no_conversion (e1 ++ e2).
Proof. apply Forall_app_2. Qed.

Lemma emu_event_no_conversion (evs : list Event) :
  Forall (λ ev, is_emu_event ev = true) evs → no_conversion evs.
Proof. intros H. eapply Forall_impl; [exact H|]. by intros []. Qed.

Lemma emu_only_emits {A : Type} (m : Run (Emu Env Core) A) :
  emu_only m → emits (λ st, trace (world st)) m (λ _ evs, no_conversion evs).
Proof.
  intros Hm st. destruct (Hm st) as [_ (evs & Ht & Hf)].
  exists evs. split; [done|]. by apply emu_event_no_conversion.
Qed.

(** ** Calls on the host that are no conversion *)

Lemma quietly_ret {S A : Type} (tr : S → list Event) (a : A) : quietly tr (mret a).
Proof. apply emits_ret. constructor. Qed.

Lemma quietly_bind {S A B : Type} (tr : S → list Event) (m : Run S A)
    (k : A → Run S B) :
  quietly tr m → (∀ a, quietly tr (k a)) → quietly tr (m ≫= k).
Proof.
  intros Hm Hk.
  apply (emits_bind tr m k (λ _ evs, no_conversion evs)
           (λ _ _ evs, no_conversion evs)); [done | done |].
  intros a e1 b e2. apply no_conversion_app.
Qed.

Lemma quietly_if {S A : Type} (tr : S → list Event) (b : bool) (m1 m2 : Run S A) :
  quietly tr m1 → quietly tr m2 → quietly tr (if b then m1 else m2).
Proof. by destruct b. Qed.

Lemma quietly_silent {A : Type} (m : Run (World Env) A) :
  (∀ w, trace (m w).2 = trace w) → quietly trace m.
Proof. intros Hm w. exists []. rewrite Hm, app_nil_r. split; [done | constructor]. Qed.

Lemma quietly_event {A : Type} (m : Run (World Env) A) (ev : Event) :
  ok_conversion ev = false → (∀ w, trace (m w).2 = trace w ++ [ev]) → quietly trace m.
Proof. intros Hev Hm w. exists [ev]. split; [done | by repeat constructor]. Qed.

Lemma quietly_print_end (s e : string) : quietly trace (print_end (Env:=Env) s e).
Proof. by apply quietly_silent. Qed.

Lemma quietly_print (s : string) : quietly trace (print (Env:=Env) s).
Proof. apply quietly_print_end. Qed.

Lemma quietly_when (b : bool) (m : Run (World Env) unit) :
  quietly trace m → quietly trace (when_ b m).
Proof. intros Hm. destruct b; [done | apply quietly_ret]. Qed.

Lemma quietly_path_exists (path : string) : quietly trace (path_exists path).
Proof. by apply (quietly_event _ (EvPathExists path)). Qed.

Lemma quietly_expanduser (path : string) : quietly trace (expanduser path).
Proof. by apply quietly_silent. Qed.

Lemma quietly_makedirs (path : string) : quietly trace (makedirs path).
Proof. by apply (quietly_event _ (EvMakedirs path)). Qed.

Lemma quietly_rmtree (path : string) : quietly trace (rmtree path).
Proof. by apply (quietly_event _ (EvRmtree path)). Qed.

Lemma quietly_run_ffmpeg_version : quietly trace run_ffmpeg_version.
Proof. by apply (quietly_event _ EvFfmpegVersion). Qed.

Lemma quietly_wave_write (filename : string) (c sw fr : Z) (frames : list Z) :
  quietly trace (wave_write filename c sw fr frames).
Proof. by apply (quietly_event _ (EvWave filename c sw fr frames)). Qed.

Create HintDb quietly discriminated.
#[local] Hint Resolve quietly_ret quietly_if quietly_print_end quietly_print quietly_when
  quietly_path_exists quietly_expanduser quietly_makedirs quietly_rmtree
  quietly_run_ffmpeg_version quietly_wave_write : quietly.
#[local] Hint Extern 2 (quietly _ (mbind _ _)) =>
  apply quietly_bind; [|intros ?] : quietly.

Lemma quietly_check_ffmpeg : quietly trace check_ffmpeg.
Proof.
  unfold check_ffmpeg. apply quietly_bind; [auto with quietly|].
  intros [rc|]; auto 10 with quietly.
Qed.

Lemma quietly_get_ffmpeg_path : quietly trace get_ffmpeg_path.
Proof.
  unfold get_ffmpeg_path. apply quietly_bind; [auto with quietly|].
  intros [rc|]; auto with quietly.
Qed.

Lemma quietly_samples_to_wav (samples : list Audio.Frame) (filename : string) :
  quietly trace (samples_to_wav samples filename).
Proof. unfold samples_to_wav. auto with quietly. Qed.

Lemma quietly_in_world {A : Type} (m : Run (World Env) A) :
  quietly trace m → quietly (λ st : Emu Env Core, trace (world st)) (in_world m).
Proof. apply emits_in_world. Qed.

Lemma quietly_emu_only {A : Type} (m : Run (Emu Env Core) A) :
  emu_only m → quietly (λ st, trace (world st)) m.
Proof. apply emu_only_emits. Qed.

(** ** The conversion *)

Lemma wav_to_mp3_emits (wav_path mp3_path : string) :
  emits trace (wav_to_mp3 wav_path mp3_path)
    (λ converted evs,
       ∃ ffmpeg returncode before,
         evs = before ++ [EvSubprocess (ffmpeg_cmd ffmpeg wav_path mp3_path) returncode] ∧
         no_conversion before ∧
         converted = (returncode =? 0)).
Proof.
  unfold wav_to_mp3.
  eapply emits_bind; [apply quietly_get_ffmpeg_path | |].
  - intros ffmpeg. cbv zeta.
    instantiate (1 := λ ffmpeg converted evs,
      ∃ returncode,
        evs = [EvSubprocess (ffmpeg_cmd ffmpeg wav_path mp3_path) returncode] ∧
        converted = (returncode =? 0)).
    intros w. rewrite bind_run.
    unfold run_subprocess. cbv zeta.
    destruct (subprocess_run (ffmpeg_cmd ffmpeg wav_path mp3_path) (env w))
      as [[returncode stderr] e].
    cbn [fst snd].
    exists [EvSubprocess (ffmpeg_cmd ffmpeg wav_path mp3_path) returncode].
    destruct (returncode =? 0) eqn:Hrc; cbn [negb].
    + split; [done|]. exists returncode. by rewrite Hrc.
    + split; [done|]. exists returncode. by rewrite Hrc.
  - intros ffmpeg before converted evs Hbefore (returncode & -> & ->).
    by exists ffmpeg, returncode, before.
Qed.

(** ** One entry, as seen in the record of calls *)

Lemma emits_after_quietly {S A B : Type} (tr : S → list Event) (m : Run S A)
    (k : A → Run S B) (R : B → list Event → Prop) :
  quietly tr m → (∀ a, emits tr (k a) R) →
  (∀ b e1 e2, no_conversion e1 → R b e2 → R b (e1 ++ e2)) →
  emits tr (m ≫= k) R.
Proof.
  intros Hm Hk HR.
  apply (emits_bind tr m k (λ _ evs, no_conversion evs) (λ _, R)); [done | done |].
  intros a e1 b e2. apply HR.
Qed.

Lemma encoded_app_l (output_dir : string) (e1 e2 : list Event) (entry : SfxEntry) :
  encoded output_dir e2 entry → encoded output_dir (e1 ++ e2) entry.
Proof. intros [ffmpeg H]. exists ffmpeg. apply elem_of_app. by right. Qed.

Lemma encoded_app_r (output_dir : string) (e1 e2 : list Event) (entry : SfxEntry) :
  encoded output_dir e1 entry → encoded output_dir (e1 ++ e2) entry.
Proof. intros [ffmpeg H]. exists ffmpeg. apply elem_of_app. by left. Qed.

Lemma encoded_conversion (output_dir : string) (evs : list Event) (entry : SfxEntry) :
  encoded output_dir evs entry → ¬ no_conversion evs.
Proof.
  intros [ffmpeg Hin] Hnone. unfold no_conversion in Hnone.
  rewrite Forall_forall in Hnone. by specialize (Hnone _ Hin).
Qed.

Lemma entry_outcome_after (output_dir : string) (entry : SfxEntry) (c : Z)
    (r : Flow * (Z * list string)) (e1 e2 : list Event) :
  no_conversion e1 → entry_outcome output_dir entry c r e2 →
  entry_outcome output_dir entry c r (e1 ++ e2).
Proof.
  intros H1 [Hflow [[Hc H2]|[Hc H2]]]; (split; [done|]).
  - left. split; [done | by apply no_conversion_app].
  - right. split; [done | by apply encoded_app_l].
Qed.

Lemma extract_one_emits (skip_unused verbose : bool) (output_dir : string)
    (entry : SfxEntry) (c : Z) (failed : list string) :
  emits (λ st : Emu Env Core, trace (world st))
    (extract_one skip_unused verbose (os_path_join output_dir ".temp") output_dir
       entry (c, failed))
    (entry_outcome output_dir entry c).
Proof.
  destruct entry as [[id name] est]. unfold extract_one.
  destruct (skip_unused && String.prefix "unused" name).
  { apply emits_after_quietly; [| |apply entry_outcome_after].
    - apply quietly_emu_only, emu_only_print.
    - intros _. apply emits_ret. split; [done|]. left. split; [done | constructor]. }
  apply emits_after_quietly; [| |apply entry_outcome_after].
  { apply quietly_emu_only, emu_only_begin_entry. }
  intros _. cbv zeta.
  apply emits_after_quietly; [| |apply entry_outcome_after].
  { apply quietly_emu_only, emu_only_record_audio. }
  intros [|arr all_samples].
  { apply emits_after_quietly; [| |apply entry_outcome_after].
    - apply quietly_emu_only, emu_only_print.
    - intros _. apply emits_ret. split; [done|]. left. split; [done | constructor]. }
  apply emits_after_quietly; [| |apply entry_outcome_after].
  { apply quietly_in_world, quietly_samples_to_wav. }
  intros _.
  eapply emits_bind.
  { apply emits_in_world, wav_to_mp3_emits. }
  - intros converted.
    instantiate (1 := λ converted r evs,
      evs = [] ∧
      r = (Continue, if (converted : bool) then (c + 1, failed)
                     else (c, failed ++ [name]))).
    destruct converted.
    + intros st. rewrite bind_run, in_world_run. cbn [fst snd].
      exists []. rewrite mret_run. cbn [fst snd world].
      split; [|done]. rewrite app_nil_r. by destruct verbose.
    + intros st. rewrite bind_run, in_world_run. cbn [fst snd].
      exists []. rewrite mret_run. cbn [fst snd world].
      split; [|done]. rewrite app_nil_r. by destruct verbose.
  - intros converted e1 r e2 (ffmpeg & returncode & before & -> & Hbefore & ->) [-> ->].
    rewrite app_nil_r. split; [done|]. cbn [fst snd].
    destruct (returncode =? 0) eqn:Hrc.
    + right. split; [done|]. exists ffmpeg.
      apply Z.eqb_eq in Hrc as ->. unfold sfx_name. cbn [fst snd].
      apply elem_of_app. right. by apply list_elem_of_singleton.
    + left. split; [done|]. apply no_conversion_app; [done|].
      by repeat constructor.
Qed.

(** ** The loop over the catalogue *)

Lemma loop_outcome_after (output_dir : string) (catalog : list SfxEntry) (c : Z)
    (r : Z * list string) (e1 e2 : list Event) :
  no_conversion e1 → loop_outcome output_dir catalog c r e2 →
  loop_outcome output_dir catalog c r (e1 ++ e2).
Proof.
  intros H1 (Hle & Hup & Hsame). split_and!; [done | |].
  - intros Hlt. destruct (Hup Hlt) as (entry & Hin & Henc).
    exists entry. split; [done | by apply encoded_app_l].
  - intros Hge. apply no_conversion_app; [done | by apply Hsame].
Qed.

Lemma extract_loop_emits (skip_unused verbose : bool) (output_dir : string)
    (catalog : list SfxEntry) (c : Z) (failed : list string) :
  emits (λ st : Emu Env Core, trace (world st))
    (for_in catalog
       (extract_one skip_unused verbose (os_path_join output_dir ".temp") output_dir)
       (c, failed))
    (loop_outcome output_dir catalog c).
Proof.
  revert c failed. induction catalog as [|entry catalog IH]; intros c failed st.
  - exists []. cbn [for_in]. rewrite mret_run, app_nil_r. split; [done|].
    split_and!; cbn [fst]; [lia | lia | constructor].
  - rewrite for_in_cons.
    destruct (extract_one_emits skip_unused verbose output_dir entry c failed st)
      as (e1 & Ht1 & Hflow & Hcount).
    destruct (extract_one skip_unused verbose (os_path_join output_dir ".temp")
                output_dir entry (c, failed) st) as [[flow [c' failed']] st'].
    cbn [fst snd] in *. subst flow.
    destruct (IH c' failed' st') as (e2 & Ht2 & Hle & Hup & Hsame).
    exists (e1 ++ e2). rewrite Ht2, Ht1, app_assoc. split; [done|].
    destruct Hcount as [[-> Hnone]|[-> Henc]].
    + split_and!; [done | |].
      * intros Hlt. destruct (Hup Hlt) as (e & Hin & He).
        exists e. split; [by apply elem_of_cons; right | by apply encoded_app_l].
      * intros Hge. apply no_conversion_app; [done | by apply Hsame].
    + split_and!; [lia | | lia].
      intros _. exists entry. split; [by apply elem_of_cons; left | by apply encoded_app_r].
Qed.

(** ** [extract_sfx] *)

Lemma with_pyboy_emits {A : Type} (rom_path : string) (body : Run (Emu Env Core) A)
    (P : A → list Event → Prop) :
  emits (λ st, trace (world st)) body P →
  emits trace (with_pyboy rom_path body)
    (λ a evs, ∃ inner, evs = [EvPyBoy rom_path] ++ inner ++ [EvStop] ∧ P a inner).
Proof.
  intros Hbody w. unfold with_pyboy. cbv zeta.
  set (st0 := {| memory := (pyboy_new rom_path (env w)).1;
                 core := (pyboy_new rom_path (env w)).2;
                 world := log (EvPyBoy rom_path) w |}).
  destruct (Hbody st0) as (inner & Ht & HP).
  destruct (body st0) as [a st']. cbn [fst snd] in *.
  exists ([EvPyBoy rom_path] ++ inner ++ [EvStop]).
  split; [|by exists inner].
  rewrite trace_log, Ht. unfold st0. cbn [world]. rewrite trace_log.
  by rewrite <- !app_assoc.
Qed.

Lemma run_outcome_after (output_dir : string) (catalog : list SfxEntry)
    (success : bool) (e1 e2 : list Event) :
  no_conversion e1 → run_outcome output_dir catalog success e2 →
  run_outcome output_dir catalog success (e1 ++ e2).
Proof.
  intros H1 [Hto Hfrom]. split.
  - intros Hs. destruct (Hto Hs) as (entry & Hin & Henc).
    exists entry. split; [done | by apply encoded_app_l].
  - intros (entry & Hin & [ffmpeg Hev]). apply Hfrom.
    exists entry. split; [done|]. exists ffmpeg.
    apply elem_of_app in Hev as [Hev|Hev]; [|done].
    unfold no_conversion in H1. rewrite Forall_forall in H1.
    by specialize (H1 _ Hev).
Qed.

Lemma run_outcome_false (output_dir : string) (catalog : list SfxEntry)
    (evs : list Event) :
  no_conversion evs → run_outcome output_dir catalog false evs.
Proof.
  intros Hnone. split; [done|].
  intros (entry & _ & Henc). by apply encoded_conversion in Henc.
Qed.

Lemma emits_failure {S : Type} (tr : S → list Event) (m : Run S unit)
    (output_dir : string) (catalog : list SfxEntry) :
  quietly tr m → emits tr (m;; mret false) (run_outcome output_dir catalog).
Proof.
  intros Hm. apply emits_after_quietly; [done | | apply run_outcome_after].
  intros _. apply emits_ret, run_outcome_false. constructor.
Qed.

Lemma emits_value {S A : Type} (tr : S → list Event) (m : Run S A) (v : A) :
  quietly tr m → (∀ s, (m s).1 = v) →
  emits tr m (λ a evs, a = v ∧ no_conversion evs).
Proof.
  intros Hm Hv s. destruct (Hm s) as (evs & Ht & Hnone). exists evs. auto.
Qed.

Lemma extract_sfx_over_emits (catalog : list SfxEntry) (rom_path output_dir : string)
    (skip_unused verbose : bool) :
  emits trace (extract_sfx_over catalog rom_path output_dir skip_unused verbose)
    (run_outcome output_dir catalog).
Proof.
  unfold extract_sfx_over.
  apply emits_after_quietly; [apply quietly_path_exists | | apply run_outcome_after].
  intros rom_found. destruct (negb rom_found).
  { apply emits_failure, quietly_print. }
  apply emits_after_quietly; [apply quietly_check_ffmpeg | | apply run_outcome_after].
  intros have_ffmpeg. destruct (negb have_ffmpeg).
  { apply emits_failure, quietly_print. }
  apply emits_after_quietly; [apply quietly_makedirs | | apply run_outcome_after].
  intros _. cbv zeta.
  apply emits_after_quietly; [apply quietly_makedirs | | apply run_outcome_after].
  intros _.
  apply emits_after_quietly; [apply quietly_print | | apply run_outcome_after].
  intros _.
  eapply (emits_bind trace _ _
            (λ r e1, ∃ inner, e1 = [EvPyBoy rom_path] ++ inner ++ [EvStop] ∧
                              loop_outcome output_dir catalog 0 r inner)
            (λ r success e2, success = (0 <? r.1) ∧ no_conversion e2)).
  - apply with_pyboy_emits.
    apply emits_after_quietly; [apply quietly_in_world, quietly_print | | apply loop_outcome_after].
    intros _.
    apply emits_after_quietly; [apply quietly_emu_only, emu_only_ticks | | apply loop_outcome_after].
    intros _.
    apply emits_after_quietly; [apply quietly_in_world, quietly_print | | apply loop_outcome_after].
    intros _.
    apply emits_after_quietly; [apply quietly_emu_only, emu_only_mem_write | | apply loop_outcome_after].
    intros _.
    apply emits_after_quietly; [apply quietly_in_world, quietly_print | | apply loop_outcome_after].
    intros _.
    apply emits_after_quietly; [apply quietly_emu_only, emu_only_reset_sound_channels | | apply loop_outcome_after].
    intros _.
    apply emits_after_quietly; [apply quietly_emu_only, emu_only_ticks | | apply loop_outcome_after].
    intros _. apply extract_loop_emits.
  - intros [extracted_count failed]. cbn [fst].
    apply emits_value.
    + auto 20 with quietly.
    + intros s. by destruct (bool_decide (failed = [])).
  - intros [extracted_count failed] e1 success e2
      (inner & -> & Hle & Hup & Hsame) [-> Hafter]. cbn [fst] in *.
    split.
    + intros Hpos. apply Z.ltb_lt in Hpos.
      destruct (Hup Hpos) as (entry & Hin & Henc).
      exists entry. split; [done|].
      by apply encoded_app_r, encoded_app_l, encoded_app_r.
    + intros (entry & Hin & Henc). apply Z.ltb_lt.
      destruct (Z.lt_ge_cases 0 extracted_count) as [|Hzero]; [done|].
      exfalso. apply (encoded_conversion _ _ _ Henc).
      repeat apply no_conversion_app; try done.
      * by repeat constructor.
      * apply Hsame. lia.
      * by repeat constructor.
Qed.

Lemma extract_sfx_over_success (catalog : list SfxEntry) (args : Args) w :
  let r := extract_sfx_over catalog (rom args) (output args)
             (arg_skip_unused args) (negb (quiet args)) w in
  (∃ evs, trace r.2 = trace w ++ evs ∧
          (r.1 = true ↔ ∃ entry, entry ∈ catalog ∧ encoded (output args) evs entry)) ∧
  ((main_over catalog args w).1 = 0 ↔ r.1 = true) ∧
  ((main_over catalog args w).1 = 1 ↔ r.1 = false).
Proof.
  cbv zeta. split; [apply extract_sfx_over_emits|].
  unfold main_over. rewrite bind_run, mret_run. cbn [fst].
  by destruct (extract_sfx_over catalog (rom args) (output args)
                 (arg_skip_unused args) (negb (quiet args)) w).1.
Qed.

(** C6: [extract_sfx] returns true exactly when, among the calls it made, the
    conversion of some catalogue entry completed with return code 0; and the
    status [main] hands to [sys.exit] is 0 when [extract_sfx] returns true
    and 1 when it returns false. *)
Theorem extract_sfx_success (args : Args) w :
  let r := extract_sfx (rom args) (output args)
             (arg_skip_unused args) (negb (quiet args)) w in
  (∃ evs, trace r.2 = trace w ++ evs ∧
          (r.1 = true ↔ ∃ entry, entry ∈ SFX_LIST ∧ encoded (output args) evs entry)) ∧
  ((main args w).1 = 0 ↔ r.1 = true) ∧
  ((main args w).1 = 1 ↔ r.1 = false).
Proof. apply extract_sfx_over_success. Qed.

(** ** The trigger *)

Lemma begin_entry_trigger (verbose : bool) (entry : SfxEntry) st :
  let st' := (begin_entry verbose entry st).2 in
  memory st' !! ADDR_CUR_SFX_ID = Some (sfx_id entry) ∧
  ∃ before,
    trace (world st')
    = trace (world st) ++ before
      ++ [EvWrite ADDR_SFX_PRIORITY 0xFF; EvWrite ADDR_CUR_SFX_ID (sfx_id entry)].
Proof.
  destruct entry as [[id name] est]. unfold sfx_name, sfx_id. cbn [fst snd].
  set (prefix :=
         in_world (when_ verbose
           (print_end ("  Extracting " +:+ format_02X id +:+ ": " +:+ name +:+ "...") " "))
         ≫= λ _, mem_write ADDR_MUSIC_PAUSE 1
         ≫= λ _, reset_sound_channels
         ≫= λ _, mem_write ADDR_CUR_SFX_ID 128
         ≫= λ _, mem_write ADDR_SFX_PRIORITY 0
         ≫= λ _, ticks (Env:=Env) (Core:=Core) 15).
  assert (emu_only prefix) as Hprefix by (unfold prefix; auto 30 with emu).
  assert ((begin_entry verbose (id, name, est) st).2
          = (mem_write ADDR_CUR_SFX_ID id
               (mem_write ADDR_SFX_PRIORITY 255 (prefix st).2).2).2) as ->.
  { unfold begin_entry, prefix. by repeat (rewrite bind_run; cbv beta). }
  destruct (Hprefix st) as [_ (before & Ht & _)].
  rewrite !mem_write_run. cbn [snd memory world]. split.
  - apply lookup_insert_eq.
  - exists before. rewrite !trace_log, Ht. by rewrite <- !app_assoc.
Qed.

(** C7, amended: the catalogue has 95 entries with pairwise distinct ids, and
    the id of an entry is what the trigger writes to the cell of the current
    effect (after writing the priority). *)
Theorem catalog_size_and_ids :
  length SFX_LIST = 95%nat ∧
  NoDup (sfx_id <$> SFX_LIST) ∧
  ∀ (verbose : bool) (entry : SfxEntry) st,
    let st' := (begin_entry verbose entry st).2 in
    memory st' !! ADDR_CUR_SFX_ID = Some (sfx_id entry) ∧
    ∃ before,
      trace (world st')
      = trace (world st) ++ before
        ++ [EvWrite ADDR_SFX_PRIORITY 0xFF; EvWrite ADDR_CUR_SFX_ID (sfx_id entry)].
Proof.
  split_and!.
  - reflexivity.
  - apply (bool_decide_unpack (NoDup (sfx_id <$> SFX_LIST))). vm_compute. exact I.
  - apply begin_entry_trigger.
Qed.

(** ** Further properties of the recording loop *)

Lemma count_events_app (p : Event → bool) (e1 e2 : list Event) :
  count_events p (e1 ++ e2) = (count_events p e1 + count_events p e2)%nat.
Proof. unfold count_events. by rewrite List.filter_app, length_app. Qed.

Lemma count_frame_events (k n : nat) :
  count_events is_tick (flat_map frame_events (seq k n)) = n ∧
  count_events is_sound (flat_map frame_events (seq k n)) = n.
Proof.
  revert k. induction n as [|n IH]; intros k; [done|].
  cbn [seq flat_map]. rewrite !count_events_app.
  destruct (IH (S k)) as [-> ->].
  unfold frame_events. by destruct (10 <? k)%nat.
Qed.

Lemma count_tail_events (n : nat) :
  count_events is_tick (tail_events n) = n ∧
  count_events is_sound (tail_events n) = n.
Proof.
  induction n as [|n [IHt IHs]]; [done|].
  change (tail_events (S n)) with ([EvTick; EvSound] ++ tail_events n).
  rewrite !count_events_app, IHt, IHs. done.
Qed.

Lemma heard_nonempty (m : gmap Z Z * Core) (n : nat) :
  Forall (λ arr, arr ≠ []) (heard m n).
Proof.
  apply Forall_forall. intros arr Hin. apply list_elem_of_In in Hin.
  unfold heard in Hin. apply List.filter_In in Hin as [_ Hlen].
  intros ->. done.
Qed.

Lemma heard_length (m : gmap Z Z * Core) (n : nat) : (length (heard m n) ≤ n)%nat.
Proof.
  unfold heard.
  etransitivity; [apply List.filter_length_le|]. by rewrite length_map, length_seq.
Qed.

Lemma recording_frame_events (k n : nat) :
  Forall (λ ev, ev = EvTick ∨ ev = EvSound ∨ ev = EvRead ADDR_CUR_SFX_ID)
    (flat_map frame_events (seq k n)).
Proof.
  revert k. induction n as [|n IH]; intros k; [constructor|].
  cbn [seq flat_map]. apply Forall_app. split; [|apply IH].
  unfold frame_events.
  destruct (10 <? k)%nat;
    repeat first [apply List.Forall_nil | apply List.Forall_cons; [tauto|]].
Qed.

Lemma recording_tail_events (n : nat) :
  Forall (λ ev, ev = EvTick ∨ ev = EvSound ∨ ev = EvRead ADDR_CUR_SFX_ID)
    (tail_events n).
Proof.
  induction n as [|n IH]; [constructor|].
  change (tail_events (S n)) with ([EvTick; EvSound] ++ tail_events n).
  apply Forall_app. split; [|done].
  repeat first [apply List.Forall_nil | apply List.Forall_cons; [tauto|]].
Qed.

(** X5: whatever the state and the number of frames asked for, the recording
    loop returns only non-empty buffers, at most one per tick; it only ticks,
    reads the audio buffer and reads the cell of the current effect (it never
    writes to memory), with one read of the audio buffer per tick; and the
    number of ticks is at least the smaller of 27 and the number of frames
    asked for, and at most 15 more than that number.  It prints nothing and
    leaves the host environment alone. *)
Theorem record_audio_bounds (frames_to_record : Z) st :
  let r := record_audio frames_to_record st in
  let limit := Z.to_nat frames_to_record in
  Forall (λ arr, arr ≠ []) r.1 ∧
  env (world r.2) = env (world st) ∧
  stdout (world r.2) = stdout (world st) ∧
  ∃ evs,
    trace (world r.2) = trace (world st) ++ evs ∧
    Forall (λ ev, ev = EvTick ∨ ev = EvSound ∨ ev = EvRead ADDR_CUR_SFX_ID) evs ∧
    count_events is_sound evs = count_events is_tick evs ∧
    machine r.2 = after (count_events is_tick evs) (machine st) ∧
    (length r.1 ≤ count_events is_tick evs)%nat ∧
    (Nat.min limit 27 ≤ count_events is_tick evs ≤ limit + 15)%nat.
Proof.
  cbv zeta. unfold record_audio, range.
  destruct (record_loop (Z.to_nat frames_to_record) 0 [] st)
    as (it & tl & Hit & _ & Hend & ->).
  cbn [fst snd]. rewrite app_nil_l, world_with_machine, with_machine_machine.
  rewrite env_log_all, stdout_log_all, trace_log_all.
  split_and!; [apply heard_nonempty | done | done |].
  eexists. split; [done|].
  rewrite !count_events_app.
  destruct (count_frame_events 0 it) as [-> ->].
  destruct (count_tail_events tl) as [-> ->].
  split_and!; [ | done | done | apply heard_length | |].
  { apply Forall_app. split; [apply recording_frame_events | apply recording_tail_events]. }
  - destruct Hend as [(Hpos & [Hgt _] & ->)|(-> & _ & ->)]; lia.
  - destruct Hend as [(Hpos & _ & ->)|(-> & _ & ->)]; lia.
Qed.

(** ** Further properties of the loop over the catalogue *)

Lemma conversions_ok_app (e1 e2 : list Event) :
  conversions_ok (e1 ++ e2) = conversions_ok e1 + conversions_ok e2.
Proof.
  unfold conversions_ok, Audio.len. rewrite List.filter_app, length_app. lia.
Qed.

Lemma conversions_ok_none (evs : list Event) :
  no_conversion evs → conversions_ok evs = 0.
Proof.
  intros H. unfold conversions_ok.
  induction H as [|ev evs Hev _ IH]; [done|].
  cbn [List.filter]. by rewrite Hev.
Qed.

Lemma entry_account_after (skip_unused : bool) (entry : SfxEntry) (c : Z)
    (failed : list string) (r : Flow * (Z * list string)) (e1 e2 : list Event) :
  no_conversion e1 → entry_account skip_unused entry c failed r e2 →
  entry_account skip_unused entry c failed r (e1 ++ e2).
Proof.
  intros H1 (Hflow & Hcount & Hr). split_and!; [done | | done].
  by rewrite conversions_ok_app, conversions_ok_none, Z.add_0_l.
Qed.

Lemma extract_one_account (skip_unused verbose : bool) (temp_dir output_dir : string)
    (entry : SfxEntry) (c : Z) (failed : list string) :
  emits (λ st : Emu Env Core, trace (world st))
    (extract_one skip_unused verbose temp_dir output_dir entry (c, failed))
    (entry_account skip_unused entry c failed).
Proof.
  destruct entry as [[id name] est]. unfold extract_one, entry_account, skipped.
  unfold sfx_name. cbn [fst snd].
  destruct (skip_unused && String.prefix "unused" name) eqn:Hskip.
  { apply emits_after_quietly.
    - apply quietly_emu_only, emu_only_print.
    - intros _. apply emits_ret. cbn [fst snd]. split_and!; [done | | done].
      by rewrite Z.add_0_r.
    - intros b e1 e2 H1 (? & ? & ?). split_and!; [done | | done].
      by rewrite conversions_ok_app, conversions_ok_none, Z.add_0_l. }
  assert (∀ (r : Flow * (Z * list string)) e1 e2,
            no_conversion e1 →
            r.1 = Continue ∧ r.2.1 = c + conversions_ok e2 ∧
              (r.2 = (c, failed ++ [name]) ∨ r.2 = (c + 1, failed)) →
            r.1 = Continue ∧ r.2.1 = c + conversions_ok (e1 ++ e2) ∧
              (r.2 = (c, failed ++ [name]) ∨ r.2 = (c + 1, failed))) as Hafter.
  { intros r e1 e2 H1 (? & ? & ?). split_and!; [done | | done].
    by rewrite conversions_ok_app, conversions_ok_none, Z.add_0_l. }
  apply emits_after_quietly; [| |apply Hafter].
  { apply quietly_emu_only, emu_only_begin_entry. }
  intros _. cbv zeta.
  apply emits_after_quietly; [| |apply Hafter].
  { apply quietly_emu_only, emu_only_record_audio. }
  intros [|arr all_samples].
  { apply emits_after_quietly; [| |apply Hafter].
    - apply quietly_emu_only, emu_only_print.
    - intros _. apply emits_ret. cbn [fst snd]. split_and!; [done | | by left].
      by rewrite Z.add_0_r. }
  apply emits_after_quietly; [| |apply Hafter].
  { apply quietly_in_world, quietly_samples_to_wav. }
  intros _.
  eapply emits_bind.
  { apply emits_in_world, wav_to_mp3_emits. }
  - intros converted.
    instantiate (1 := λ converted r evs,
      evs = [] ∧
      r = (Continue, if (converted : bool) then (c + 1, failed)
                     else (c, failed ++ [name]))).
    destruct converted.
    + intros st. rewrite bind_run, in_world_run. cbn [fst snd].
      exists []. rewrite mret_run. cbn [fst snd world].
      split; [|done]. rewrite app_nil_r. by destruct verbose.
    + intros st. rewrite bind_run, in_world_run. cbn [fst snd].
      exists []. rewrite mret_run. cbn [fst snd world].
      split; [|done]. rewrite app_nil_r. by destruct verbose.
  - intros converted e1 r e2 (ffmpeg & returncode & before & -> & Hbefore & ->) [-> ->].
    rewrite app_nil_r, conversions_ok_app, (conversions_ok_none before) by done.
    unfold conversions_ok. cbn [List.filter ok_conversion fst snd].
    destruct (returncode =? 0); cbn [fst snd]; split_and!;
      first [done | by right | by left | unfold Audio.len; cbn [length]; lia].
Qed.

Lemma extract_loop_account (skip_unused verbose : bool) (temp_dir output_dir : string)
    (catalog : list SfxEntry) (c : Z) (failed : list string) :
  emits (λ st : Emu Env Core, trace (world st))
    (for_in catalog (extract_one skip_unused verbose temp_dir output_dir) (c, failed))
    (loop_account skip_unused catalog c failed).
Proof.
  revert c failed. induction catalog as [|entry catalog IH]; intros c failed st.
  - exists []. cbn [for_in]. rewrite mret_run, app_nil_r. split; [done|].
    split; [cbn [fst]; change (conversions_ok []) with 0; lia|].
    exists []. cbn [fst snd]. rewrite app_nil_r. split_and!; [done | apply sublist_nil_l | done].
  - rewrite for_in_cons.
    destruct (extract_one_account skip_unused verbose temp_dir output_dir entry
                c failed st) as (e1 & Ht1 & Hflow & Hcount & Hr).
    destruct (extract_one skip_unused verbose temp_dir output_dir entry (c, failed) st)
      as [[flow [c' failed']] st'].
    cbn [fst snd] in *. subst flow.
    destruct (IH c' failed' st') as (e2 & Ht2 & Hc2 & names & Hf2 & Hsub & Hlen).
    exists (e1 ++ e2). rewrite Ht2, Ht1, app_assoc. split; [done|].
    split; [rewrite Hc2, Hcount, conversions_ok_app; lia|].
    unfold processed in *. cbn [List.filter].
    destruct (skipped skip_unused entry); cbn [negb].
    + injection Hr as -> ->. exists names. split_and!; [done | done |].
      rewrite conversions_ok_app. lia.
    + destruct Hr as [[= -> ->]|[= -> ->]].
      * exists (sfx_name entry :: names). rewrite Hf2, <- app_assoc.
        split_and!; [done | by apply sublist_skip |].
        rewrite conversions_ok_app. unfold Audio.len in *. cbn [length]. lia.
      * exists names. split_and!; [done | by apply sublist_cons |].
        rewrite conversions_ok_app. unfold Audio.len in *. cbn [length]. lia.
Qed.


(** X7: every entry the loop does not skip ends up in exactly one of the two
    tallies: the names added to [failed] are names of such entries, in
    catalogue order, and the extracted effects and the added failures together
    number as many as those entries.  Skipped entries are in neither. *)
Theorem every_entry_accounted (skip_unused verbose : bool)
    (temp_dir output_dir : string) (catalog : list SfxEntry)
    (extracted_count : Z) (failed : list string) st :
  let r := for_in catalog (extract_one skip_unused verbose temp_dir output_dir)
             (extracted_count, failed) st in
  ∃ names,
    r.1.2 = failed ++ names ∧
    names `sublist_of` (sfx_name <$> processed skip_unused catalog) ∧
    (r.1.1 - extracted_count) + Audio.len names
    = Audio.len (processed skip_unused catalog).
Proof.
  cbv zeta.
  destruct (extract_loop_account skip_unused verbose temp_dir output_dir catalog
              extracted_count failed st) as (evs & Ht & Hc & names & Hf & Hsub & Hlen).
  exists names. split_and!; [done | done | lia].
Qed.

Lemma for_in_app_continue {S A B : Type} (l1 l2 : list A)
    (body : A → B → Run S (Flow * B)) (b : B) (s : S) :
  (∀ x b' s', (body x b' s').1.1 = Continue) →
  for_in (l1 ++ l2) body b s
  = for_in l2 body (for_in l1 body b s).1 (for_in l1 body b s).2.
Proof.
  intros Hbody. revert b s. induction l1 as [|x l1 IH]; intros b s; [done|].
  cbn [app]. rewrite !for_in_cons.
  specialize (Hbody x b s).
  destruct (body x b s) as [[flow b'] s']. cbn [fst snd] in *. subst flow.
  apply IH.
Qed.

(** X8: no entry ends the loop early, whatever happens to it: running the
    loop over two catalogues in a row is running it over the first and then
    over the second, from the counters and the state the first run ended
    with. *)
Theorem extract_loop_app (skip_unused verbose : bool) (temp_dir output_dir : string)
    (first second : list SfxEntry) (counters : Z * list string) st :
  let body := extract_one skip_unused verbose temp_dir output_dir in
  for_in (first ++ second) body counters st
  = for_in second body (for_in first body counters st).1
      (for_in first body counters st).2.
Proof.
  cbv zeta. apply for_in_app_continue.
  intros entry [c failed] s.
  by destruct (extract_one_account skip_unused verbose temp_dir output_dir entry
                 c failed s) as (_ & _ & Hflow & _).
Qed.

(** ** Which calls a computation can make *)

Lemma only_ret {S A : Type} (p : Event → bool) (tr : S → list Event) (a : A) :
  only p tr (mret a).
Proof. apply emits_ret. constructor. Qed.

Lemma only_bind {S A B : Type} (p : Event → bool) (tr : S → list Event)
    (m : Run S A) (k : A → Run S B) :
  only p tr m → (∀ a, only p tr (k a)) → only p tr (m ≫= k).
Proof.
  intros Hm Hk.
  apply (emits_bind tr m k (λ _ evs, Forall (λ ev, p ev = true) evs)
           (λ _ _ evs, Forall (λ ev, p ev = true) evs)); [done | done |].
  intros a e1 b e2. apply Forall_app_2.
Qed.

Lemma only_if {S A : Type} (p : Event → bool) (tr : S → list Event) (b : bool)
    (m1 m2 : Run S A) :
  only p tr m1 → only p tr m2 → only p tr (if b then m1 else m2).
Proof. by destruct b. Qed.

Lemma only_for_in {S A B : Type} (p : Event → bool) (tr : S → list Event)
    (items : list A) (body : A → B → Run S (Flow * B)) (b : B) :
  (∀ x b', only p tr (body x b')) → only p tr (for_in items body b).
Proof.
  intros Hbody. revert b. induction items as [|x items IH]; intros b.
  - apply only_ret.
  - change (for_in (x :: items) body b)
      with (body x b ≫= λ r, match r with
                              | (Break, b') => mret b'
                              | (Continue, b') => for_in items body b'
                              end).
    apply only_bind; [done|].
    intros [[|] b']; [apply IH | apply only_ret].
Qed.

Lemma only_silent {A : Type} (p : Event → bool) (m : Run (World Env) A) :
  (∀ w, trace (m w).2 = trace w) → only p trace m.
Proof. intros Hm w. exists []. rewrite Hm, app_nil_r. split; [done | constructor]. Qed.

Lemma only_event {A : Type} (p : Event → bool) (m : Run (World Env) A) (ev : Event) :
  p ev = true → (∀ w, trace (m w).2 = trace w ++ [ev]) → only p trace m.
Proof. intros Hev Hm w. exists [ev]. split; [done | by repeat constructor]. Qed.

Lemma only_in_world {A : Type} (p : Event → bool) (m : Run (World Env) A) :
  only p trace m → only p (λ st : Emu Env Core, trace (world st)) (in_world m).
Proof. apply emits_in_world. Qed.

Lemma only_emu_only {A : Type} (p : Event → bool) (m : Run (Emu Env Core) A) :
  (∀ ev, is_emu_event ev = true → p ev = true) →
  emu_only m → only p (λ st, trace (world st)) m.
Proof.
  intros Hp Hm st. destruct (Hm st) as [_ (evs & Ht & Hf)].
  exists evs. split; [done|]. eapply Forall_impl; [exact Hf | exact Hp].
Qed.

Lemma only_check_ffmpeg : only is_probe_event trace check_ffmpeg.
Proof.
  unfold check_ffmpeg. apply only_bind.
  { by apply (only_event _ _ EvFfmpegVersion). }
  intros [rc|]; [apply only_ret|].
  apply only_bind; [by apply only_silent|]. intros path.
  apply only_bind; [by apply (only_event _ _ (EvPathExists path))|].
  intros [|]; apply only_ret.
Qed.

Lemma only_wav_to_mp3 (wav_path mp3_path : string) :
  only is_entry_event trace (wav_to_mp3 wav_path mp3_path).
Proof.
  unfold wav_to_mp3. apply only_bind.
  { unfold get_ffmpeg_path. apply only_bind.
    - by apply (only_event _ _ EvFfmpegVersion).
    - intros [rc|]; [apply only_ret | by apply only_silent]. }
  intros ffmpeg. cbv zeta. apply only_bind.
  { intros w. unfold run_subprocess. cbv zeta. cbn [fst snd].
    eexists [_]. split; [done | by repeat constructor]. }
  intros [returncode stderr]. apply only_if; [|apply only_ret].
  apply only_bind; [by apply only_silent | intros; apply only_ret].
Qed.

Lemma is_emu_entry_event (ev : Event) :
  is_emu_event ev = true → is_entry_event ev = true.
Proof. by destruct ev. Qed.

Lemma only_extract_one (skip_unused verbose : bool) (temp_dir output_dir : string)
    (entry : SfxEntry) (counters : Z * list string) :
  only is_entry_event (λ st : Emu Env Core, trace (world st))
    (extract_one skip_unused verbose temp_dir output_dir entry counters).
Proof.
  destruct entry as [[id name] est], counters as [c failed]. unfold extract_one.
  destruct (skip_unused && String.prefix "unused" name).
  { apply only_bind; [|intros; apply only_ret].
    apply only_emu_only; [apply is_emu_entry_event | apply emu_only_print]. }
  apply only_bind.
  { apply only_emu_only; [apply is_emu_entry_event | apply emu_only_begin_entry]. }
  intros _. cbv zeta. apply only_bind.
  { apply only_emu_only; [apply is_emu_entry_event | apply emu_only_record_audio]. }
  intros [|arr all_samples].
  { apply only_bind; [|intros; apply only_ret].
    apply only_emu_only; [apply is_emu_entry_event | apply emu_only_print]. }
  apply only_bind.
  { apply only_in_world. unfold samples_to_wav, wave_write. intros w.
    cbn [fst snd]. eexists [_]. split; [done | by repeat constructor]. }
  intros _. apply only_bind; [apply only_in_world, only_wav_to_mp3|].
  intros [|]; (apply only_bind; [|intros; apply only_ret]);
    (apply only_emu_only; [apply is_emu_entry_event | apply emu_only_print]).
Qed.

(** ** The calls of a whole run *)

Lemma emits_weaken {S A : Type} (tr : S → list Event) (m : Run S A)
    (P Q : A → list Event → Prop) :
  emits tr m P → (∀ a evs, P a evs → Q a evs) → emits tr m Q.
Proof.
  intros Hm HPQ s. destruct (Hm s) as (evs & Ht & HP). exists evs. auto.
Qed.

Lemma emits_prefix {S A B : Type} (tr : S → list Event) (m : Run S A)
    (k : A → Run S B) (L : list Event) (R : B → list Event → Prop) :
  emits tr m (λ _ evs, evs = L) → (∀ a, emits tr (k a) R) →
  emits tr (m ≫= k) (λ b evs, ∃ rest, evs = L ++ rest ∧ R b rest).
Proof.
  intros Hm Hk.
  apply (emits_bind tr m k (λ _ evs, evs = L) (λ _, R)); [done | done |].
  intros a e1 b e2 -> HR. by exists e2.
Qed.

Lemma ticks_loop_run {A : Type} (items : list A) st :
  for_in items (λ _ u, tick;; mret (Continue, u)) tt st
  = (tt, with_machine (after (length items) (machine st))
           (log_all (replicate (length items) EvTick) (world st))).
Proof.
  revert st. induction items as [|x items IH]; intros st.
  - cbn [for_in length]. rewrite mret_run. by rewrite <- (with_machine_eta st) at 1.
  - rewrite for_in_cons, bind_run, tick_run. cbn [fst snd]. rewrite mret_run.
    cbn [fst snd]. rewrite IH. cbn [length]. rewrite <- after_tick.
    unfold machine at 1. cbn [memory core world].
    by rewrite <- surjective_pairing.
Qed.

(** [ticks n] is [n] ticks and nothing else. *)
Lemma ticks_run (n : Z) st :
  ticks n st
  = (tt, with_machine (after (Z.to_nat n) (machine st))
           (log_all (replicate (Z.to_nat n) EvTick) (world st))).
Proof.
  unfold ticks, range. by rewrite ticks_loop_run, length_map, length_seq.
Qed.

Lemma emits_ticks (n : Z) :
  emits (λ st : Emu Env Core, trace (world st)) (ticks n)
    (λ _ evs, evs = replicate (Z.to_nat n) EvTick).
Proof.
  intros st. rewrite ticks_run. cbn [fst snd]. rewrite world_with_machine, trace_log_all.
  by eexists.
Qed.

Lemma emits_mem_write (addr value : Z) :
  emits (λ st : Emu Env Core, trace (world st)) (mem_write addr value)
    (λ _ evs, evs = [EvWrite addr value]).
Proof. intros st. by eexists. Qed.

Lemma emits_reset_sound_channels :
  emits (λ st : Emu Env Core, trace (world st)) reset_sound_channels
    (λ _ evs, evs = map (λ row, EvWrite row.1 row.2) quiesced_registers).
Proof.
  intros st. rewrite reset_sound_channels_run. cbn [fst snd world].
  rewrite trace_log_all. by eexists.
Qed.

Lemma emits_print_in_world (s : string) :
  emits (λ st : Emu Env Core, trace (world st)) (in_world (print s))
    (λ _ evs, evs = []).
Proof. intros st. exists []. by rewrite app_nil_r. Qed.

Lemma emits_print (s : string) :
  emits trace (print (Env:=Env) s) (λ _ evs, evs = []).
Proof. intros w. exists []. by rewrite app_nil_r. Qed.

Lemma emits_makedirs (path : string) :
  emits trace (makedirs path) (λ _ evs, evs = [EvMakedirs path]).
Proof. intros w. by eexists. Qed.

Lemma extract_sfx_over_shape (catalog : list SfxEntry) (rom_path output_dir : string)
    (skip_unused verbose : bool) :
  emits trace (extract_sfx_over catalog rom_path output_dir skip_unused verbose)
    (run_shape rom_path output_dir).
Proof.
  unfold extract_sfx_over.
  eapply emits_weaken.
  { apply emits_prefix; [by intros w; eexists|]. intros rom_found.
    instantiate (1 := λ success evs,
      (success = false ∧ ∃ probe, evs = probe ∧
         Forall (λ ev, is_probe_event ev = true) probe)
      ∨ (∃ probe entries,
           evs = probe
                 ++ [EvMakedirs output_dir; EvMakedirs (os_path_join output_dir ".temp")]
                 ++ warm_up_events rom_path ++ entries
                 ++ [EvStop; EvRmtree (os_path_join output_dir ".temp")] ∧
           Forall (λ ev, is_probe_event ev = true) probe ∧
           Forall (λ ev, is_entry_event ev = true) entries)).
    destruct (negb rom_found).
    { intros w. exists []. rewrite app_nil_r. split; [done|]. left.
      split; [done|]. by exists []. }
    eapply (emits_bind trace _ _ (λ _ evs, Forall (λ ev, is_probe_event ev = true) evs)
              (λ _ success evs,
                 (success = false ∧ evs = [])
                 ∨ ∃ entries,
                     evs = [EvMakedirs output_dir;
                            EvMakedirs (os_path_join output_dir ".temp")]
                           ++ warm_up_events rom_path ++ entries
                           ++ [EvStop; EvRmtree (os_path_join output_dir ".temp")] ∧
                     Forall (λ ev, is_entry_event ev = true) entries)).
    - apply only_check_ffmpeg.
    - intros have_ffmpeg. destruct (negb have_ffmpeg).
      { intros w. exists []. rewrite app_nil_r. split; [done|]. by left. }
      eapply emits_weaken.
      { apply emits_prefix; [apply emits_makedirs|]. intros _. cbv zeta.
        apply emits_prefix; [apply emits_makedirs|]. intros _.
        apply emits_prefix; [apply emits_print|]. intros _.
        eapply (emits_bind trace _ _
                  (λ _ e1, ∃ inner, e1 = [EvPyBoy rom_path] ++ inner ++ [EvStop] ∧
                     ∃ entries,
                       inner = replicate 700 EvTick
                               ++ [EvWrite ADDR_MUSIC_PAUSE 1]
                               ++ map (λ row, EvWrite row.1 row.2) quiesced_registers
                               ++ replicate 60 EvTick ++ entries ∧
                       Forall (λ ev, is_entry_event ev = true) entries)
                  (λ _ _ e2, e2 = [EvRmtree (os_path_join output_dir ".temp")])
                  (λ _ evs, ∃ entries,
                     evs = warm_up_events rom_path ++ entries
                           ++ [EvStop; EvRmtree (os_path_join output_dir ".temp")] ∧
                     Forall (λ ev, is_entry_event ev = true) entries)).
        - apply with_pyboy_emits.
          eapply emits_weaken.
          { apply emits_prefix; [apply emits_print_in_world|]. intros _.
            apply emits_prefix; [apply emits_ticks|]. intros _.
            apply emits_prefix; [apply emits_print_in_world|]. intros _.
            apply emits_prefix; [apply emits_mem_write|]. intros _.
            apply emits_prefix; [apply emits_print_in_world|]. intros _.
            apply emits_prefix; [apply emits_reset_sound_channels|]. intros _.
            apply emits_prefix; [apply emits_ticks|]. intros _.
            apply only_for_in. intros. apply only_extract_one. }
          intros r evs (r1 & -> & r2 & -> & r3 & -> & r4 & -> & r5 & -> & r6 & ->
                        & r7 & -> & Hentries).
          exists r7. split; [|done]. cbn [app]. done.
        - intros [extracted_count failed] w.
          exists [EvRmtree (os_path_join output_dir ".temp")].
          by destruct (bool_decide (failed = [])).
        - intros a e1 b e2 (inner & -> & entries & -> & Hentries) ->.
          exists entries. split; [|done].
          unfold warm_up_events. cbn [app]. by rewrite <- !app_assoc. }
      intros success evs (r1 & -> & r2 & -> & r3 & -> & entries & -> & Hentries).
      right. by exists entries.
    - intros a e1 success e2 Hprobe [[-> ->]|(entries & -> & Hentries)].
      + left. split; [done|]. exists e1. by rewrite app_nil_r.
      + right. by exists e1, entries. }
  intros success evs (rest & -> & [(-> & probe & -> & Hp)|(probe & entries & -> & Hp & He)]).
  - left. split; [done|]. by exists probe.
  - right. by exists probe, entries.
Qed.

(** X9: the calls of a run of [extract_sfx] have one of two shapes.  Either
    the run stops at its start-up checks: it has tested the ROM path, possibly
    probed for ffmpeg, called nothing else, and returns false.  Or it tests the
    ROM path, probes for ffmpeg, creates the output and the temporary directory,
    starts the emulator, ticks 700 times, sets the music-pause flag, resets the
    sound registers, ticks 60 times, works through the entries (calling only
    the emulator, the WAV writer, the ffmpeg probe and the conversion), and
    ends by stopping the emulator and removing the temporary directory. *)
Theorem extract_sfx_run_shape (rom_path output_dir : string)
    (skip_unused verbose : bool) w :
  let r := extract_sfx rom_path output_dir skip_unused verbose w in
  ∃ evs, trace r.2 = trace w ++ evs ∧ run_shape rom_path output_dir r.1 evs.
Proof. apply extract_sfx_over_shape. Qed.

(** X10: when the ROM path does not exist, [extract_sfx] returns false
    (and [main] exits with status 1) after that one test: it prints the error
    line, and probes nothing, creates nothing and starts no emulator. *)
Theorem extract_sfx_rom_missing (args : Args) w :
  os_path_exists (rom args) (env w) = false →
  extract_sfx (rom args) (output args) (arg_skip_unused args) (negb (quiet args)) w
  = (false,
     {| env := env w;
        stdout := stdout w +:+ ("Error: ROM file not found: " +:+ rom args) +:+ newline;
        trace := trace w ++ [EvPathExists (rom args)] |}) ∧
  (main args w).1 = 1.
Proof.
  intros Hrom.
  assert (extract_sfx (rom args) (output args) (arg_skip_unused args)
            (negb (quiet args)) w
          = (false,
             {| env := env w;
                stdout := stdout w +:+ ("Error: ROM file not found: " +:+ rom args)
                          +:+ newline;
                trace := trace w ++ [EvPathExists (rom args)] |})) as Hrun.
  { unfold extract_sfx, extract_sfx_over. rewrite bind_run.
    unfold path_exists at 1 2. cbn [fst snd]. by rewrite Hrom. }
  split; [done|].
  unfold main, main_over. rewrite bind_run.
  change (extract_sfx_over SFX_LIST) with (extract_sfx (Env:=Env) (Core:=Core)).
  by rewrite Hrun.
Qed.

Lemma check_ffmpeg_value w :
  (check_ffmpeg w).1
  = match (ffmpeg_version (env w)).1 with
    | Some returncode => returncode =? 0
    | None =>
        os_path_exists
          (os_path_expanduser "~/bin/ffmpeg" (ffmpeg_version (env w)).2)
          (ffmpeg_version (env w)).2
    end.
Proof.
  unfold check_ffmpeg. rewrite bind_run.
  unfold run_ffmpeg_version. cbv zeta. cbn [fst snd].
  destruct (ffmpeg_version (env w)).1 as [rc|]; [done|].
  rewrite bind_run. unfold expanduser. cbn [fst snd].
  rewrite bind_run. unfold path_exists. cbn [fst snd env log set_env].
  by destruct (os_path_exists _ _).
Qed.

(** X11: when the ROM exists but [ffmpeg -version] returns a non-zero code,
    or cannot be started while [~/bin/ffmpeg] does not exist, [extract_sfx]
    returns false (and [main] exits with status 1) having made only the checks:
    no directory is created, the emulator is not started, nothing is
    converted.  A non-zero return code counts as missing whether or not
    [~/bin/ffmpeg] exists. *)
Theorem extract_sfx_ffmpeg_missing (args : Args) w :
  let probe := ffmpeg_version (env w) in
  os_path_exists (rom args) (env w) = true →
  (∃ returncode, probe.1 = Some returncode ∧ returncode ≠ 0) ∨
  (probe.1 = None ∧
   os_path_exists (os_path_expanduser "~/bin/ffmpeg" probe.2) probe.2 = false) →
  let r := extract_sfx (rom args) (output args) (arg_skip_unused args)
             (negb (quiet args)) w in
  r.1 = false ∧ (main args w).1 = 1 ∧
  ∃ evs, trace r.2 = trace w ++ evs ∧
         Forall (λ ev, is_probe_event ev = true) evs.
Proof.
  cbv zeta. intros Hrom Hprobe.
  set (w1 := log (EvPathExists (rom args)) w).
  assert ((check_ffmpeg w1).1 = false) as Hcheck.
  { rewrite check_ffmpeg_value. unfold w1. cbn [env log].
    destruct Hprobe as [(rc & -> & Hrc)|[-> Hmissing]]; [by apply Z.eqb_neq | done]. }
  assert (extract_sfx (rom args) (output args) (arg_skip_unused args)
            (negb (quiet args)) w
          = (false,
             (print "Error: ffmpeg not found. Please install it or download static binary."
                (check_ffmpeg w1).2).2)) as Hrun.
  { unfold extract_sfx, extract_sfx_over. rewrite bind_run.
    unfold path_exists at 1 2. cbn [fst snd]. rewrite Hrom. cbn [negb].
    fold w1. rewrite bind_run, Hcheck. cbn [negb]. by rewrite bind_run. }
  split_and!.
  - by rewrite Hrun.
  - unfold main, main_over. rewrite bind_run.
    change (extract_sfx_over SFX_LIST) with (extract_sfx (Env:=Env) (Core:=Core)).
    by rewrite Hrun.
  - rewrite Hrun. cbn [snd print print_end trace].
    destruct (only_check_ffmpeg w1) as (probe_evs & Ht & Hp).
    exists (EvPathExists (rom args) :: probe_evs). rewrite Ht. unfold w1.
    rewrite trace_log, <- app_assoc. split; [done|]. by constructor.
Qed.

(** ** An entry's prologue *)





End RunnerFacts.

(* ===================================================================== *)
(** * The script on the scripted host                                     *)
(* ===================================================================== *)

Module Scenarios.
Import Stub.

(** The theorems above at concrete inputs. *)

Lemma skip_unused_entry_witness :
  String.prefix "unused" (sfx_name (0x05, "unused_05", 30)) = true ∧
  (extract_one (HOST := host audible) true true "public/sfx/.temp" "public/sfx"
     (0x05, "unused_05", 30) (0, []) emu0).1 = (Continue, (0, [])).
Proof.
  split; [reflexivity|].
  apply (skip_unused_entry (HOST := host audible) true "public/sfx/.temp"
           "public/sfx" (0x05, "unused_05", 30) 0 [] emu0).
  reflexivity.
Defined.

Lemma no_audio_entry_witness :
  false && String.prefix "unused" (sfx_name (0x02, "confirm", 20)) = false ∧
  (record_audio (HOST := host silent) (est_frames (0x02, "confirm", 20) + 30)
     (begin_entry (HOST := host silent) true (0x02, "confirm", 20) emu0).2).1 = [] ∧
  (extract_one (HOST := host silent) false true "public/sfx/.temp" "public/sfx"
     (0x02, "confirm", 20) (0, []) emu0).1 = (Continue, (0, ["confirm"])).
Proof.
  split; [reflexivity|]. split; [vm_compute; reflexivity|].
  apply (no_audio_entry (HOST := host silent) false true "public/sfx/.temp"
           "public/sfx" (0x02, "confirm", 20) 0 [] emu0).
  - reflexivity.
  - vm_compute. reflexivity.
Defined.

(** The recording loop on a host whose triggered effect reports finished at
    its 12th tick: 12 iterations, the exit test read once (in iteration 11),
    then the 15 steps of the tail; 27 buffers in all. *)
Example record_audio_early_exit :
  let st := (begin_entry (HOST := host audible) false (0x02, "confirm", 20) emu0).2 in
  let r := record_audio (HOST := host audible) 50 st in
  length r.1 = 27%nat ∧
  trace (world r.2)
  = trace (world st) ++ flat_map frame_events (seq 0 12) ++ tail_events 15.
Proof. vm_compute. split; reflexivity. Qed.

(** One entry, audio on every tick: one file, success, status 0. *)
Example scenario_confirm :
  let r := main_over (HOST := host audible) confirm_only default_args world0 in
  r.1 = 0 ∧
  env r.2 = ["public/sfx/confirm.mp3"; "public/sfx"; "pokemon_card_game.gb"] ∧
  stdout r.2
  = "Loading ROM: pokemon_card_game.gb" +:+ newline
    +:+ "Initializing game (waiting for title screen)..." +:+ newline
    +:+ "Setting music pause flag..." +:+ newline
    +:+ "Resetting sound channels..." +:+ newline
    +:+ "  Extracting 02: confirm... OK (0ms)" +:+ newline
    +:+ newline +:+ "Extraction complete!" +:+ newline
    +:+ "  Extracted: 1 SFX" +:+ newline
    +:+ "  Failed: 0" +:+ newline.
Proof. vm_compute. split_and!; reflexivity. Qed.

(** One entry, never any audio: no file, a failure, status 1. *)
Example scenario_no_audio :
  let r := main_over (HOST := host silent) confirm_only default_args world0 in
  r.1 = 1 ∧
  env r.2 = ["public/sfx"; "pokemon_card_game.gb"] ∧
  stdout r.2
  = "Loading ROM: pokemon_card_game.gb" +:+ newline
    +:+ "Initializing game (waiting for title screen)..." +:+ newline
    +:+ "Setting music pause flag..." +:+ newline
    +:+ "Resetting sound channels..." +:+ newline
    +:+ "  Extracting 02: confirm... NO AUDIO" +:+ newline
    +:+ newline +:+ "Extraction complete!" +:+ newline
    +:+ "  Extracted: 0 SFX" +:+ newline
    +:+ "  Failed: 1" +:+ newline
    +:+ "  Failed SFX: confirm" +:+ newline.
Proof. vm_compute. split_and!; reflexivity. Qed.

(** [--skip-unused] with an unused entry: no file, no failure, nothing
    extracted. *)
Example scenario_skip_unused :
  let args := {| rom := "pokemon_card_game.gb"; output := "public/sfx";
                 arg_skip_unused := true; quiet := true |} in
  let r := main_over (HOST := host audible) [(0x05, "unused_05", 30)] args world0 in
  r.1 = 1 ∧
  env r.2 = ["public/sfx"; "pokemon_card_game.gb"] ∧
  stdout r.2
  = "Loading ROM: pokemon_card_game.gb" +:+ newline
    +:+ "Initializing game (waiting for title screen)..." +:+ newline
    +:+ "Setting music pause flag..." +:+ newline
    +:+ "Resetting sound channels..." +:+ newline
    +:+ newline +:+ "Extraction complete!" +:+ newline
    +:+ "  Extracted: 0 SFX" +:+ newline
    +:+ "  Failed: 0" +:+ newline.
Proof. vm_compute. split_and!; reflexivity. Qed.

End Scenarios.

(* ===================================================================== *)
(** * Further runs on the scripted host                                   *)
(* ===================================================================== *)

Module Checks.
Import Stub.

Lemma extract_sfx_rom_missing_witness :
  os_path_exists (Host := host audible) (rom default_args) (env no_rom) = false ∧
  (main (HOST := host audible) default_args no_rom).1 = 1.
Proof.
  split; [reflexivity|].
  apply (extract_sfx_rom_missing (HOST := host audible) default_args no_rom).
  reflexivity.
Defined.

Lemma extract_sfx_ffmpeg_missing_witness :
  os_path_exists (Host := host broken_ffmpeg) (rom default_args) (env world0) = true ∧
  (ffmpeg_version (Host := host broken_ffmpeg) (env world0)).1 = Some 1 ∧
  (extract_sfx (HOST := host broken_ffmpeg) (rom default_args) (output default_args)
     (arg_skip_unused default_args) (negb (quiet default_args)) world0).1 = false.
Proof.
  split; [reflexivity|]. split; [reflexivity|].
  apply (extract_sfx_ffmpeg_missing (HOST := host broken_ffmpeg) default_args world0).
  - reflexivity.
  - left. exists 1. split; [reflexivity | lia].
Defined.


(** A run that stops at the ROM test, as [extract_sfx] leaves the world. *)
Example run_without_rom :
  extract_sfx (HOST := host audible) "pokemon_card_game.gb" "public/sfx" false true no_rom
  = (false,
     {| env := [];
        stdout := "Error: ROM file not found: pokemon_card_game.gb" +:+ newline;
        trace := [EvPathExists "pokemon_card_game.gb"] |}).
Proof. vm_compute. reflexivity. Qed.

End Checks.
